(** * mercurius-validation: the JSON-Schema validator

    A shallow embedding of [lib/validators/json-schema-validator.js]
    (class [JSONSchemaValidator]) and of the facts its specification
    states about it.

    Data model.
    - A JavaScript value is a [JSValue]; an object is the finite map of
      its own enumerable string-keyed properties ([gmap string JSValue]).
      Property order is irrelevant to every lookup the validator makes on
      a schema fragment.  Members inherited from a prototype are not
      modelled, and a function value carries no properties.  Numbers are
      integers: the validator copies them and never computes with them.
    - Object spread [{...a, ...b}] is the union of the own properties,
      the right operand winning ([own_props b ∪ own_props a]).
    - The type map of the GraphQL schema and the field map of a type are
      association lists in [Object.entries] order.
    - The validator instance holds [this[kAjv]]; calls made on the Ajv
      instance and on [kOverrideFieldResolver] are recorded, in order, in
      a call history.  An exception leaves the instance as it was when it
      was thrown. *)

From Stdlib Require Import Ascii.
From stdpp Require Import gmap strings list fin_maps pretty.

Set Warnings "-register-all".

(** ** JavaScript values *)

Inductive JSValue :=
| JUndefined
| JNull
| JBool (b : bool)
| JNum (n : Z)
| JStr (s : string)
| JArr (l : list JSValue)
| JObj (o : gmap string JSValue)
| JFun (name : string).

Abbreviation JSObject := (gmap string JSValue).

Fixpoint chars (s : string) : list JSValue :=
  match s with
  | EmptyString => []
  | String c r => JStr (String c EmptyString) :: chars r
  end.

Definition indexed (l : list JSValue) : JSObject :=
  list_to_map (imap (fun i v => (pretty i, v)) l).

(** The own enumerable properties of a value: what [{...v}] copies. *)
Definition own_props (v : JSValue) : JSObject :=
  match v with
  | JObj o => o
  | JArr l => indexed l
  | JStr s => indexed (chars s)
  | _ => ∅
  end.

(** [v[k]], for a receiver that is neither [null] nor [undefined].  The
    source reads a property of an override only under a [!== null] test
    on a value obtained as [x || null]. *)
Definition prop (v : JSValue) (k : string) : JSValue :=
  match own_props v !! k with
  | Some w => w
  | None =>
      match v with
      | JArr l => if decide (k = "length") then JNum (Z.of_nat (length l)) else JUndefined
      | JStr s => if decide (k = "length") then JNum (Z.of_nat (String.length s)) else JUndefined
      | _ => JUndefined
      end
  end.

Definition truthy (v : JSValue) : bool :=
  match v with
  | JUndefined | JNull => false
  | JBool b => b
  | JNum n => negb (Z.eqb n 0)
  | JStr s => negb (String.eqb s "")
  | _ => true
  end.

(** [v || null] *)
Definition or_null (v : JSValue) : JSValue := if truthy v then v else JNull.

(** [v !== null] *)
Definition not_null (v : JSValue) : bool :=
  match v with JNull => false | _ => true end.

(** [typeof v === 'undefined'] *)
Definition is_undefined (v : JSValue) : bool :=
  match v with JUndefined => true | _ => false end.

(** [typeof v === 'string' || Array.isArray(v)] *)
Definition is_string_or_array (v : JSValue) : bool :=
  match v with JStr _ | JArr _ => true | _ => false end.

(** ** The type graph, as the validator reads it *)

Inductive TypeKind :=
| KScalar | KEnum | KObject | KInterface | KUnion | KInputObject.

Record NamedType := { name : string; kind : TypeKind }.

Definition isInputObjectKind (k : TypeKind) : bool :=
  match k with KInputObject => true | _ => false end.

Definition isInputObjectType (t : NamedType) : bool := isInputObjectKind (kind t).

(** The declared type of a position with its outer non-null wrapper
    removed; the validator only asks it [isListType]. *)
Inductive GraphQLType :=
| NamedT (t : NamedType)
| ListT (ofType : GraphQLType)
| NonNullT (ofType : GraphQLType).

Definition isListType (t : GraphQLType) : bool :=
  match t with ListT _ => true | _ => false end.

(** What [getTypeInfo] returns for a field or an argument:
    [[type, namedType, isNonNull]].  [getTypeInfo] is defined in
    [lib/utils], outside the sources at hand, so every element carries
    the triple it yields. *)
Definition TypeInfo : Type := GraphQLType * NamedType * bool.

Record Argument := { arg_name : string; arg_info : TypeInfo }.

Record Field := {
  args : option (list Argument);   (* [None]: [args] is undefined *)
  field_info : TypeInfo
}.

Record SchemaType := {
  type_kind : TypeKind;
  getFields : option (list (string * Field))  (* [None]: no such method *)
}.

(** [Object.entries(schema.getTypeMap())] *)
Definition Schema : Type := list (string * SchemaType).

(** ** Reference identifiers *)

Definition base_uri : string := "https://mercurius.dev/validation/".

Definition type_id (typeName : string) : string := base_uri +:+ typeName.

Definition field_id (typeName fieldName : string) : string :=
  base_uri +:+ typeName +:+ "/" +:+ fieldName.

Definition argument_id (typeName fieldName argumentName : string) : string :=
  base_uri +:+ typeName +:+ "/" +:+ fieldName +:+ "/" +:+ argumentName.



(** GraphQL names match [[_A-Za-z][_0-9A-Za-z]*]; what the reference
    identifiers rely on is that a name holds no slash. *)
Fixpoint no_slash (s : string) : bool :=
  match s with
  | EmptyString => true
  | String c r => negb (Ascii.eqb c "/"%char) && no_slash r
  end.


(** ** Schema synthesis *)

Section Synthesis.

(** [inferJSONSchemaType] comes from [lib/utils], outside the sources
    at hand: the synthesis is studied for an arbitrary inference. *)
Variable inferJSONSchemaType : NamedType -> bool -> JSValue.

(** The fragment built by [kValidationSchema] before the final merge
    with the override (lines 14-39). *)
Definition built_schema (type : GraphQLType) (namedType : NamedType)
    (isNonNull : bool) (typeValidation : JSValue) (id : string) : JSObject :=
  let builtValidationSchema :=
    <["$id" := JStr id]> (own_props (inferJSONSchemaType namedType isNonNull)) in
  if isInputObjectType namedType then
    if isListType type then
      let items :=
        <["$ref" := JStr (type_id (name namedType))]>
          (own_props (prop (JObj builtValidationSchema) "items")) in
      <["nullable" := JBool (negb isNonNull)]>
        (<["items" := JObj items]>
          (<["type" := JStr "array"]> builtValidationSchema))
    else
      <["nullable" := JBool (negb isNonNull)]>
        (<["$ref" := JStr (type_id (name namedType))]>
          (<["type" := JStr "object"]> builtValidationSchema))
  else if isListType type then
    let items :=
      own_props (prop (JObj builtValidationSchema) "items")
        ∪ own_props (inferJSONSchemaType namedType isNonNull) in
    let items :=
      if not_null typeValidation
      then own_props (prop typeValidation "items") ∪ items
      else items in
    <["nullable" := JBool (negb isNonNull)]>
      (<["items" := JObj items]>
        (<["type" := JStr "array"]> builtValidationSchema))
  else builtValidationSchema.

Definition kValidationSchema (type : GraphQLType) (namedType : NamedType)
    (isNonNull : bool) (typeValidation : JSValue) (id : string) : JSObject :=
  let builtValidationSchema :=
    built_schema type namedType isNonNull typeValidation id in
  if not_null typeValidation
  then builtValidationSchema ∪ own_props typeValidation
  else builtValidationSchema.

End Synthesis.

(** Modelled from the spec: [inferJSONSchemaType] of [lib/utils], which
    is not among the sources.  The spec (4.1) maps the primitive leaves
    to their shape, nullable unless the position is non-null, and every
    other leaf to the empty fragment.  It is used for concrete runs
    only. *)
Definition inferJSONSchemaType_default (t : NamedType) (isNonNull : bool) : JSValue :=
  let shape (s : string) :=
    JObj {[ "type" := if isNonNull then JStr s else JArr [JStr s; JStr "null"] ]} in
  match kind t with
  | KScalar =>
      if decide (name t = "String") then shape "string"
      else if decide (name t = "Int") then shape "integer"
      else if decide (name t = "Float") then shape "number"
      else if decide (name t = "Boolean") then shape "boolean"
      else if decide (name t = "ID") then shape "string"
      else JObj ∅
  | _ => JObj ∅
  end.

(** ** Exceptions, the validator instance, and the Ajv boundary *)

Inductive AjvFailure := KeyExists | SchemaInvalid | CompileFailed | KeyNotString.

Inductive Error :=
| MER_VALIDATION_ERR_FIELD_TYPE_UNDEFINED (id : JSValue)
| AjvError (why : AjvFailure) (key : JSValue)
| TypeError.

(** An Ajv instance: the schemas added under their key, and the keys
    whose validator has been compiled. *)
Record Ajv := {
  schemas : gmap string JSObject;
  compiled : gset string
}.

(** [new Ajv({...})], with the formats and error plugins installed. *)
Definition new_Ajv : Ajv := {| schemas := ∅; compiled := ∅ |}.

Inductive Call :=
| NewAjv
| AddSchema (key : JSValue)
| GetSchema (key : JSValue)
| OverrideFieldResolver (typeName fieldName : string).

Record Validator := {
  kAjv : option Ajv;      (* [this[kAjv]]; [None] before the first pass *)
  history : list Call
}.

(** Computations of the validator: they read and update the instance
    and either return or throw; the instance survives a throw. *)
Definition M (A : Type) : Type := Validator -> (Error + A) * Validator.

Definition ret {A} (x : A) : M A := fun v => (inr x, v).

Definition throw {A} (e : Error) : M A := fun v => (inl e, v).

Definition bind {A B} (m : M A) (f : A -> M B) : M B :=
  fun v =>
    match m v with
    | (inl e, v') => (inl e, v')
    | (inr x, v') => f x v'
    end.

Definition lift {A} (r : Error + A) : M A := fun v => (r, v).

Declare Scope validator_scope.
Delimit Scope validator_scope with validator.
Notation "x <- m ;; k" := (bind m (fun x => k))
  (at level 100, m at next level, right associativity) : validator_scope.
Notation "m ;; k" := (bind m (fun _ => k))
  (at level 100, right associativity) : validator_scope.
Open Scope validator_scope.

(** [for (const x of l) { acc = body(acc, x) }] *)
Fixpoint for_of {A B} (l : list A) (body : B -> A -> M B) (acc : B) : M B :=
  match l with
  | [] => ret acc
  | x :: r => acc' <- body acc x ;; for_of r body acc'
  end.

Definition record (c : Call) : M unit :=
  fun v => (inr tt, {| kAjv := kAjv v; history := history v ++ [c] |}).

Definition set_kAjv (a : Ajv) : M unit :=
  fun v => (inr tt, {| kAjv := Some a; history := history v |}).

(** A method call on [this[kAjv]]. *)
Definition with_kAjv (op : Ajv -> Error + Ajv) : M unit :=
  fun v =>
    match kAjv v with
    | None => (inl TypeError, v)
    | Some a =>
        match op a with
        | inl e => (inl e, v)
        | inr a' => (inr tt, {| kAjv := Some a'; history := history v |})
        end
    end.

Section Backend.

(** Ajv is an external library.  Whether it accepts a schema document
    when it is added, and whether a schema compiles against the
    schemas added so far, is left to two oracles. *)
Variable schema_valid : JSObject -> bool.
Variable compile_ok : gmap string JSObject -> JSObject -> bool.

(** [ajv.addSchema(schema, key)]: the key must be free and the schema
    must pass the meta-schema.  (A key that is not a string does not
    arise: every unit carries the string [$id] it was built with.) *)
Definition addSchema (schema : JSObject) (key : JSValue) (a : Ajv) : Error + Ajv :=
  match key with
  | JStr k =>
      match schemas a !! k with
      | Some _ => inl (AjvError KeyExists key)
      | None =>
          if schema_valid schema
          then inr {| schemas := <[k := schema]> (schemas a); compiled := compiled a |}
          else inl (AjvError SchemaInvalid key)
      end
  | _ => inl (AjvError KeyNotString key)
  end.

(** [ajv.getSchema(key)]: compiles the schema stored under the key on
    first use; an unknown key yields [undefined], not an exception. *)
Definition getSchema (key : JSValue) (a : Ajv) : Error + Ajv :=
  match key with
  | JStr k =>
      match schemas a !! k with
      | None => inr a
      | Some schema =>
          if decide (k ∈ compiled a) then inr a
          else if compile_ok (schemas a) schema
          then inr {| schemas := schemas a; compiled := {[k]} ∪ compiled a |}
          else inl (AjvError CompileFailed key)
      end
  | _ => inr a
  end.

End Backend.

(** ** The validator *)

(** [schemaToRegister.$id] *)
Definition unit_key (schemaToRegister : JSObject) : JSValue :=
  prop (JObj schemaToRegister) "$id".

(** [schemaToRegister.properties], as a property set *)
Definition properties_of (schemaToRegister : JSObject) : JSObject :=
  own_props (prop (JObj schemaToRegister) "properties").

(** [o.properties[k] = v] *)
Definition set_property (o : JSObject) (k : string) (v : JSValue) : JSObject :=
  <["properties" := JObj (<[k := v]> (properties_of o))]> o.

(** Modelled from the spec: [kOverrideFieldResolver] belongs to the base
    class [Validator] of [lib/validators/validator], which is not among
    the sources.  The spec (4.3, 4.4) has it mark the field for
    interception; the call is recorded in the history. *)
Definition kOverrideFieldResolver (typeName fieldName : string) : M unit :=
  record (OverrideFieldResolver typeName fieldName).

Section Validator.

Variable inferJSONSchemaType : NamedType -> bool -> JSValue.
Variable schema_valid : JSObject -> bool.
Variable compile_ok : gmap string JSObject -> JSObject -> bool.

(** [fieldValidation !== null ? fieldValidation[argument.name] || null : null] *)
Definition argument_validation (fieldValidation : JSValue) (argument : Argument) : JSValue :=
  if not_null fieldValidation
  then or_null (prop fieldValidation (arg_name argument))
  else JNull.

(** The fragment synthesized for one argument (lines 58-62). *)
Definition argument_schema (typeName fieldName : string) (fieldValidation : JSValue)
    (argument : Argument) : JSObject :=
  let '(argumentType, namedArgumentType, isNonNull) := arg_info argument in
  let argumentValidation := argument_validation fieldValidation argument in
  let id := argument_id typeName fieldName (arg_name argument) in
  kValidationSchema inferJSONSchemaType argumentType namedArgumentType
    isNonNull argumentValidation id.

(** The body of the loop over the arguments (lines 58-64). *)
Definition argument_step (typeName fieldName : string) (fieldValidation : JSValue)
    (fieldArgumentsValidationSchema : JSObject) (argument : Argument) : JSObject :=
  let argumentValidationSchema :=
    argument_schema typeName fieldName fieldValidation argument in
  set_property fieldArgumentsValidationSchema (arg_name argument)
    (JObj argumentValidationSchema).

(** The object built by lines 51-65. *)
Definition arguments_schema (typeName fieldName : string) (fieldValidation : JSValue)
    (arguments : list Argument) : JSObject :=
  let fieldArgumentsValidationSchema : JSObject :=
    {[ "$id" := JStr (field_id typeName fieldName);
       "type" := JStr "object";
       "properties" := JObj ∅ ]} in
  fold_left (argument_step typeName fieldName fieldValidation)
    arguments fieldArgumentsValidationSchema.

Definition kBuildArgumentsSchema (typeName fieldName : string)
    (schemaTypeField : Field) (fieldValidation : JSValue) : M JSObject :=
  match args schemaTypeField with
  | None => throw TypeError   (* iterating [undefined] *)
  | Some arguments =>
      let fieldArgumentsValidationSchema :=
        arguments_schema typeName fieldName fieldValidation arguments in
      kOverrideFieldResolver typeName fieldName ;;
      ret fieldArgumentsValidationSchema
  end.

(** [null] is [None]. *)
Definition kBuildInputTypeFieldSchema (typeName fieldName : string)
    (schemaTypeField : Field) (fieldValidation : JSValue) : Error + option JSObject :=
  let '(fieldType, namedFieldType, isNonNull) := field_info schemaTypeField in
  let id := field_id typeName fieldName in
  let builtFieldValidationSchema :=
    kValidationSchema inferJSONSchemaType fieldType namedFieldType
      isNonNull fieldValidation id in
  if not_null fieldValidation
     && is_undefined (prop (JObj builtFieldValidationSchema) "type")
  then inl (MER_VALIDATION_ERR_FIELD_TYPE_UNDEFINED
              (prop (JObj builtFieldValidationSchema) "$id"))
  else if is_string_or_array (prop (JObj builtFieldValidationSchema) "type")
  then inr (Some builtFieldValidationSchema)
  else inr None.

(** [typeof f.args !== 'undefined' && Object.keys(f.args).length > 0] *)
Definition has_arguments (schemaTypeField : Field) : bool :=
  match args schemaTypeField with
  | Some (_ :: _) => true
  | _ => false
  end.

(** [typeValidation !== null ? typeValidation[fieldName] || null : null] *)
Definition field_validation (typeValidation : JSValue) (fieldName : string) : JSValue :=
  if not_null typeValidation
  then or_null (prop typeValidation fieldName)
  else JNull.

(** The body of the loop over the fields of a type (lines 126-137); the
    accumulator is [typeValidationSchema] and [schemasToRegister]. *)
Definition field_step (typeName : string) (schemaType : SchemaType)
    (typeValidation : JSValue) (acc : JSObject * list JSObject)
    (entry : string * Field) : M (JSObject * list JSObject) :=
  let '(typeValidationSchema, schemasToRegister) := acc in
  let '(fieldName, schemaTypeField) := entry in
  let fieldValidation := field_validation typeValidation fieldName in
  if has_arguments schemaTypeField then
    s <- kBuildArgumentsSchema typeName fieldName schemaTypeField fieldValidation ;;
    ret (typeValidationSchema, schemasToRegister ++ [s])
  else if isInputObjectKind (type_kind schemaType) then
    fieldValidationSchema <-
      lift (kBuildInputTypeFieldSchema typeName fieldName schemaTypeField fieldValidation) ;;
    match fieldValidationSchema with
    | Some s => ret (set_property typeValidationSchema fieldName (JObj s), schemasToRegister)
    | None => ret (typeValidationSchema, schemasToRegister)
    end
  else ret (typeValidationSchema, schemasToRegister).

(** [typeName.startsWith('__')] *)
Definition is_introspection (typeName : string) : bool := String.prefix "__" typeName.

(** [validationSchema[typeName] || null] *)
Definition type_validation (validationSchema : JSValue) (typeName : string) : JSValue :=
  or_null (prop validationSchema typeName).

(** [typeValidationSchema] as lines 111-123 leave it, before the
    fields are visited. *)
Definition initial_type_schema (typeName : string) (schemaType : SchemaType)
    (typeValidation : JSValue) : JSObject :=
  let typeValidationSchema : JSObject :=
    {[ "$id" := JStr (type_id typeName);
       "type" := JStr "object";
       "nullable" := JBool true;
       "properties" := JObj ∅ ]} in
  if isInputObjectKind (type_kind schemaType)
     && not_null typeValidation
     && negb (is_undefined (prop typeValidation "__typeValidation"))
  then typeValidationSchema ∪ own_props (prop typeValidation "__typeValidation")
  else typeValidationSchema.

(** The body of the loop over the types (lines 110-143). *)
Definition type_step (validationSchema : JSValue)
    (schemasToRegister : list JSObject) (entry : string * SchemaType)
    : M (list JSObject) :=
  let '(typeName, schemaType) := entry in
  let typeValidation := type_validation validationSchema typeName in
  match getFields schemaType with
  | Some fields =>
      if negb (is_introspection typeName) then
        let typeValidationSchema :=
          initial_type_schema typeName schemaType typeValidation in
        out <-
          for_of fields (field_step typeName schemaType typeValidation)
            (typeValidationSchema, schemasToRegister) ;;
        let '(typeValidationSchema, schemasToRegister) := out in
        if isInputObjectKind (type_kind schemaType)
        then ret (schemasToRegister ++ [typeValidationSchema])
        else ret schemasToRegister
      else ret schemasToRegister
  | None => ret schemasToRegister
  end.

(** The graph walk (lines 106-144). *)
Definition collect_schemas (schema : Schema) (validationSchema : JSValue)
    : M (list JSObject) :=
  for_of schema (type_step validationSchema) [].

Definition add_step (_ : unit) (schemaToRegister : JSObject) : M unit :=
  let key := unit_key schemaToRegister in
  record (AddSchema key) ;;
  with_kAjv (addSchema schema_valid schemaToRegister key).

Definition get_step (_ : unit) (schemaToRegister : JSObject) : M unit :=
  let key := unit_key schemaToRegister in
  record (GetSchema key) ;;
  with_kAjv (getSchema compile_ok key).

Definition registerValidationSchema (schema : Schema) (validationSchema : JSValue)
    : M unit :=
  record NewAjv ;;
  set_kAjv new_Ajv ;;
  schemasToRegister <- collect_schemas schema validationSchema ;;
  for_of schemasToRegister add_step tt ;;
  for_of schemasToRegister get_step tt.

End Validator.

(** ** A small schema for concrete runs *)

Module Example.

Definition Color : NamedType := {| name := "Color"; kind := KEnum |}.
Definition GraphQLString : NamedType := {| name := "String"; kind := KScalar |}.
Definition GraphQLID : NamedType := {| name := "ID"; kind := KScalar |}.
Definition Filters : NamedType := {| name := "Filters"; kind := KInputObject |}.

Definition bare (t : NamedType) : TypeInfo := (NamedT t, t, false).
Definition list_of (t : NamedType) : TypeInfo := (ListT (NamedT t), t, false).

Definition color_field : Field := {| args := None; field_info := bare Color |}.

Definition filters_fields : list (string * Field) :=
  [ ("id", {| args := None; field_info := bare GraphQLID |});
    ("text", {| args := None; field_info := bare GraphQLString |});
    ("color", color_field) ].

(** [input Filters { id: ID, text: String, color: Color }] *)
Definition FiltersType : SchemaType :=
  {| type_kind := KInputObject; getFields := Some filters_fields |}.

Definition color_argument : Argument :=
  {| arg_name := "color"; arg_info := bare Color |}.

Definition message_arguments : list Argument :=
  [ {| arg_name := "id"; arg_info := bare GraphQLID |}; color_argument ].

Definition message_field : Field :=
  {| args := Some message_arguments; field_info := bare GraphQLString |}.

Definition query_fields : list (string * Field) :=
  [ ("message", message_field);
    ("messages",
     {| args := Some [ {| arg_name := "filters"; arg_info := bare Filters |};
                       {| arg_name := "all"; arg_info := list_of Filters |} ];
        field_info := bare GraphQLString |});
    ("plain", {| args := Some []; field_info := bare GraphQLString |}) ].

(** [type Query { message(id: ID, color: Color): String
                  messages(filters: Filters, all: [Filters]): String
                  plain: String }] *)
Definition QueryType : SchemaType :=
  {| type_kind := KObject; getFields := Some query_fields |}.

Definition ColorType : SchemaType := {| type_kind := KEnum; getFields := None |}.

Definition good_schema : Schema :=
  [ ("Query", QueryType); ("Filters", FiltersType); ("Color", ColorType) ].

(** [{ Filters: { text: { minLength: 1 } } }] *)
Definition good_validation : JSValue :=
  JObj {[ "Filters" := JObj {[ "text" := JObj {[ "minLength" := JNum 1 ]} ]} ]}.

(** [{ Filters: { color: { minLength: 1 } } }]: an override on a field
    whose type is not inferred. *)
Definition bad_validation : JSValue :=
  JObj {[ "Filters" := JObj {[ "color" := JObj {[ "minLength" := JNum 1 ]} ]} ]}.

Definition fresh : Validator := {| kAjv := None; history := [] |}.

Definition accept_all : JSObject -> bool := fun _ => true.
Definition compile_all : gmap string JSObject -> JSObject -> bool := fun _ _ => true.

Definition run (schema : Schema) (validationSchema : JSValue) (v : Validator) :=
  registerValidationSchema inferJSONSchemaType_default accept_all compile_all
    schema validationSchema v.

End Example.

(** ** The units of a pass

    What the graph walk collects when no field throws, and the
    identifiers it assigns, written as functions of the type graph and
    of the overrides. *)

Definition set_properties (o : JSObject) (bindings : list (string * JSValue)) : JSObject :=
  fold_left (fun o kv => set_property o kv.1 kv.2) bindings o.

Section Units.

Variable infer : NamedType -> bool -> JSValue.

(** The unit a field with arguments contributes. *)
Definition field_unit (typeName : string) (typeValidation : JSValue)
    (entry : string * Field) : option JSObject :=
  if has_arguments entry.2
  then Some (arguments_schema infer typeName entry.1
               (field_validation typeValidation entry.1)
               (default [] (args entry.2)))
  else None.

(** The property a field without arguments contributes to its
    input-object type. *)
Definition field_property (typeName : string) (typeValidation : JSValue)
    (entry : string * Field) : option (string * JSValue) :=
  if has_arguments entry.2 then None
  else
    match kBuildInputTypeFieldSchema infer typeName entry.1 entry.2
            (field_validation typeValidation entry.1) with
    | inr (Some s) => Some (entry.1, JObj s)
    | _ => None
    end.

(** The type-level unit of an input-object type. *)
Definition type_schema (typeName : string) (schemaType : SchemaType)
    (typeValidation : JSValue) (fields : list (string * Field)) : JSObject :=
  set_properties (initial_type_schema typeName schemaType typeValidation)
    (omap (field_property typeName typeValidation) fields).

Definition type_units (validationSchema : JSValue)
    (entry : string * SchemaType) : list JSObject :=
  let typeValidation := type_validation validationSchema entry.1 in
  match getFields entry.2 with
  | Some fields =>
      if negb (is_introspection entry.1) then
        omap (field_unit entry.1 typeValidation) fields
        ++ (if isInputObjectKind (type_kind entry.2)
            then [type_schema entry.1 entry.2 typeValidation fields]
            else [])
      else []
  | None => []
  end.

Definition units (schema : Schema) (validationSchema : JSValue) : list JSObject :=
  flat_map (type_units validationSchema) schema.

End Units.

(** The identifiers of the units, from the names alone. *)
Definition field_unit_id (typeName : string) (entry : string * Field) : option string :=
  if has_arguments entry.2 then Some (field_id typeName entry.1) else None.

Definition type_unit_ids (entry : string * SchemaType) : list string :=
  match getFields entry.2 with
  | Some fields =>
      if negb (is_introspection entry.1) then
        omap (field_unit_id entry.1) fields
        ++ (if isInputObjectKind (type_kind entry.2) then [type_id entry.1] else [])
      else []
  | None => []
  end.

Definition unit_ids (schema : Schema) : list string := flat_map type_unit_ids schema.

(** The calls to [kOverrideFieldResolver] of a complete walk. *)
Definition field_call (typeName : string) (entry : string * Field) : option Call :=
  if has_arguments entry.2
  then Some (OverrideFieldResolver typeName entry.1)
  else None.

Definition type_calls (entry : string * SchemaType) : list Call :=
  match getFields entry.2 with
  | Some fields =>
      if negb (is_introspection entry.1)
      then omap (field_call entry.1) fields
      else []
  | None => []
  end.

(** The call intercepts a field of the schema that declares at least one
    argument. *)
Definition intercepts (schema : Schema) (c : Call) : Prop :=
  exists typeName schemaType fields fieldName field,
    c = OverrideFieldResolver typeName fieldName
    /\ (typeName, schemaType) ∈ schema
    /\ is_introspection typeName = false
    /\ getFields schemaType = Some fields
    /\ (fieldName, field) ∈ fields
    /\ has_arguments field = true.

(** A type map and its field maps are keyed by name, and a type name is
    a GraphQL name. *)
Definition well_formed_type (entry : string * SchemaType) : bool :=
  no_slash entry.1
  && match getFields entry.2 with
     | Some fields => bool_decide (NoDup fields.*1)
     | None => true
     end.

Definition well_formed (schema : Schema) : bool :=
  bool_decide (NoDup schema.*1) && forallb well_formed_type schema.

(** Among the collected units, [u] is the one, and the only one, whose
    [$id] is [id]. *)
Definition registered_once (us : list JSObject) (id : string) (u : JSObject) : Prop :=
  exists i,
    us !! i = Some u
    /\ unit_key u = JStr id
    /\ forall j u', us !! j = Some u' -> unit_key u' = JStr id -> j = i.

(** The computation returned; it did not throw. *)
Definition returns {A} (r : Error + A) : bool :=
  match r with inr _ => true | inl _ => false end.

(** A computation whose outcome and whose Ajv instance are determined
    by the Ajv instance it starts from: the call history is write-only. *)
Definition oblivious {A} (m : M A) : Prop :=
  forall v1 v2, kAjv v1 = kAjv v2 ->
    (m v1).1 = (m v2).1 /\ kAjv (m v1).2 = kAjv (m v2).2.

(** ** The specification's wording, where the code departs from it *)

Section Wording.

Variable infer : NamedType -> bool -> JSValue.

(** Merge step, as worded: a key present both in the override and in
    the synthesized fragment takes the override's value, the identity
    keys apart. *)
Definition override_takes_precedence : Prop :=
  forall type namedType isNonNull (o : JSObject) id k,
    k <> "$id" -> k <> "type" ->
    is_Some (o !! k) ->
    is_Some (built_schema infer type namedType isNonNull (JObj o) id !! k) ->
    kValidationSchema infer type namedType isNonNull (JObj o) id !! k = o !! k.

(** Composite leaves, as worded: an override fragment contributes
    nothing beyond the reference substitution. *)
Definition composite_override_contributes_nothing : Prop :=
  forall type namedType isNonNull (o : JSObject) id,
    isInputObjectType namedType = true ->
    kValidationSchema infer type namedType isNonNull (JObj o) id =
    kValidationSchema infer type namedType isNonNull JNull id.

(** Arguments, as worded: an argument whose fragment has no inferred
    shape and that has no override is left out of the property set of
    the field's argument object. *)
Definition unshaped_argument_omitted : Prop :=
  forall typeName fieldName fv arguments a,
    a ∈ arguments ->
    argument_validation fv a = JNull ->
    is_undefined
      (prop (JObj (argument_schema infer typeName fieldName fv a)) "type") = true ->
    properties_of (arguments_schema infer typeName fieldName fv arguments)
      !! arg_name a = None.

Variable schema_valid : JSObject -> bool.
Variable compile_ok : gmap string JSObject -> JSObject -> bool.

(** Failure, as worded: a pass that fails leaves the registry
    installed by the previous successful pass in place. *)
Definition failed_pass_keeps_registry : Prop :=
  forall good good_validation bad bad_validation v v1 v2 e,
    registerValidationSchema infer schema_valid compile_ok
      good good_validation v = (inr tt, v1) ->
    registerValidationSchema infer schema_valid compile_ok
      bad bad_validation v1 = (inl e, v2) ->
    kAjv v2 = kAjv v1.

End Wording.

(** ** Fields that make the walk throw *)

Section Offending.

Variable infer : NamedType -> bool -> JSValue.


End Offending.

(** The type is visited by the walk and gets a type-level unit. *)
Definition visited_input_type (entry : string * SchemaType)
    (fields : list (string * Field)) : Prop :=
  getFields entry.2 = Some fields
  /\ is_introspection entry.1 = false
  /\ isInputObjectKind (type_kind entry.2) = true.

(** * Facts *)

(** ** Concrete runs *)

Example good_run_history :
  history (Example.run Example.good_schema Example.good_validation Example.fresh).2
  = [ NewAjv;
      OverrideFieldResolver "Query" "message";
      OverrideFieldResolver "Query" "messages";
      AddSchema (JStr (field_id "Query" "message"));
      AddSchema (JStr (field_id "Query" "messages"));
      AddSchema (JStr (type_id "Filters"));
      GetSchema (JStr (field_id "Query" "message"));
      GetSchema (JStr (field_id "Query" "messages"));
      GetSchema (JStr (type_id "Filters")) ].
Proof. vm_compute. reflexivity. Qed.

Example bad_run_throws :
  (Example.run Example.good_schema Example.bad_validation Example.fresh).1
  = inl (MER_VALIDATION_ERR_FIELD_TYPE_UNDEFINED (JStr (field_id "Filters" "color"))).
Proof. vm_compute. reflexivity. Qed.

Example bad_run_history :
  history (Example.run Example.good_schema Example.bad_validation Example.fresh).2
  = [ NewAjv;
      OverrideFieldResolver "Query" "message";
      OverrideFieldResolver "Query" "messages" ].
Proof. vm_compute. reflexivity. Qed.

(** [text: String] with the override [{ minLength: 1 }]. *)
Example text_field_fragment :
  let r := kValidationSchema inferJSONSchemaType_default
             (NamedT Example.GraphQLString) Example.GraphQLString false
             (JObj {[ "minLength" := JNum 1 ]}) (field_id "Filters" "text") in
  r !! "minLength" = Some (JNum 1)
  /\ r !! "type" = Some (JArr [JStr "string"; JStr "null"])
  /\ r !! "$id" = Some (JStr "https://mercurius.dev/validation/Filters/text").
Proof. vm_compute. done. Qed.

(** [Filters] with [__typeValidation: { type: 'string', minProperties: 1 }]. *)
Example type_validation_fragment :
  let r := initial_type_schema "Filters" Example.FiltersType
             (JObj {[ "__typeValidation" :=
                        JObj {[ "type" := JStr "string";
                                "minProperties" := JNum 1 ]} ]}) in
  r !! "type" = Some (JStr "object") /\ r !! "minProperties" = Some (JNum 1).
Proof. vm_compute. done. Qed.

(** Spreading an array or a string copies its indices. *)
Example spread_array :
  own_props (JArr [JStr "a"; JStr "b"]) !! "1" = Some (JStr "b")
  /\ own_props (JStr "ab") !! "0" = Some (JStr "a")
  /\ prop (JStr "ab") "length" = JNum 2.
Proof. vm_compute. done. Qed.

(** ** Schema synthesis *)

Section SynthesisFacts.

Variable infer : NamedType -> bool -> JSValue.

Lemma union_lookup_left (m1 m2 : JSObject) k v :
  m1 !! k = Some v -> (m1 ∪ m2) !! k = Some v.
Proof. intros H. by apply lookup_union_Some_l. Qed.

Lemma union_lookup_right (m1 m2 : JSObject) k :
  m1 !! k = None -> (m1 ∪ m2) !! k = m2 !! k.
Proof. intros H. by apply lookup_union_r. Qed.

Lemma union_lookup (m1 m2 : JSObject) k :
  (m1 ∪ m2) !! k = match m1 !! k with Some v => Some v | None => m2 !! k end.
Proof.
  destruct (m1 !! k) as [v|] eqn:E.
  - by apply union_lookup_left.
  - by apply union_lookup_right.
Qed.

(** The built fragment always carries the reference id it was given. *)
Lemma built_schema_id type namedType isNonNull tv id :
  built_schema infer type namedType isNonNull tv id !! "$id" = Some (JStr id).
Proof.
  unfold built_schema.
  destruct (isInputObjectType namedType), (isListType type);
    by simplify_map_eq.
Qed.

(** The merge of lines 42-44, key by key: a key of the built fragment
    keeps its built value; the override supplies the other keys. *)
Lemma kValidationSchema_lookup type namedType isNonNull tv id k :
  kValidationSchema infer type namedType isNonNull tv id !! k =
    match built_schema infer type namedType isNonNull tv id !! k with
    | Some v => Some v
    | None => if not_null tv then own_props tv !! k else None
    end.
Proof.
  unfold kValidationSchema. destruct (not_null tv).
  - apply union_lookup.
  - by destruct (built_schema _ _ _ _ _ _ !! k).
Qed.

Lemma kValidationSchema_built type namedType isNonNull tv id k v :
  built_schema infer type namedType isNonNull tv id !! k = Some v ->
  kValidationSchema infer type namedType isNonNull tv id !! k = Some v.
Proof. intros H. by rewrite kValidationSchema_lookup, H. Qed.

Lemma kValidationSchema_id type namedType isNonNull tv id :
  kValidationSchema infer type namedType isNonNull tv id !! "$id" = Some (JStr id).
Proof. apply kValidationSchema_built, built_schema_id. Qed.

(** For a composite leaf the built fragment does not consult the
    override. *)
Lemma built_schema_composite type namedType isNonNull tv tv' id :
  isInputObjectType namedType = true ->
  built_schema infer type namedType isNonNull tv id =
  built_schema infer type namedType isNonNull tv' id.
Proof. intros H. unfold built_schema. by rewrite H. Qed.

End SynthesisFacts.

(** ** Reference identifiers are injective on names *)

Lemma no_slash_split a b x y :
  no_slash a = true -> no_slash b = true ->
  a +:+ "/" +:+ x = b +:+ "/" +:+ y -> a = b /\ x = y.
Proof.
  revert b. induction a as [|c a IH]; intros [|d b] Ha Hb H; simpl in *.
  - by injection H.
  - injection H as <- _. by rewrite andb_false_l in Hb.
  - injection H as -> _. by rewrite andb_false_l in Ha.
  - injection H as -> H.
    apply andb_true_iff in Ha as [_ Ha]. apply andb_true_iff in Hb as [_ Hb].
    destruct (IH b Ha Hb H) as [-> ->]. done.
Qed.

Lemma no_slash_not_split t a x :
  no_slash t = true -> t <> a +:+ "/" +:+ x.
Proof.
  revert t. induction a as [|c a IH]; intros [|d t] Ht H; simpl in *; try done.
  - injection H as -> _. by rewrite andb_false_l in Ht.
  - injection H as _ H. apply andb_true_iff in Ht as [_ Ht]. by apply (IH t).
Qed.

Lemma type_id_inj t1 t2 : type_id t1 = type_id t2 -> t1 = t2.
Proof. unfold type_id. apply String.app_inj. Qed.

Lemma type_id_not_field_id t t' f :
  no_slash t = true -> type_id t <> field_id t' f.
Proof.
  unfold type_id, field_id. intros Ht H.
  apply String.app_inj in H. by apply (no_slash_not_split t t' f).
Qed.

Lemma field_id_inj t1 f1 t2 f2 :
  no_slash t1 = true -> no_slash t2 = true ->
  field_id t1 f1 = field_id t2 f2 -> t1 = t2 /\ f1 = f2.
Proof.
  unfold field_id. intros H1 H2 H. apply String.app_inj in H.
  by apply no_slash_split.
Qed.

(** ** The merge with an override fragment *)

(** C1 (as amended).  For every position synthesized with a
    schema-fragment override, every key of the synthesized fragment
    keeps its synthesized value in the result, the identity keys [$id]
    and [type] included; the override supplies the value of exactly the
    keys the synthesized fragment lacks. *)
Theorem merge_keeps_synthesized_keys infer type namedType isNonNull
    (o : JSObject) id k :
  kValidationSchema infer type namedType isNonNull (JObj o) id !! k =
    match built_schema infer type namedType isNonNull (JObj o) id !! k with
    | Some v => Some v
    | None => o !! k
    end.
Proof. by rewrite kValidationSchema_lookup. Qed.

(** C1, counterexample.  An argument of type [[Color]] (a list of an
    enum) with the override [{ nullable: false }]: [nullable] is a key
    of both the override and the synthesized fragment, and the result
    holds the synthesized [true]. *)
Lemma override_takes_precedence_fails :
  ~ override_takes_precedence inferJSONSchemaType_default.
Proof.
  intros H.
  pose proof (H (ListT (NamedT Example.Color)) Example.Color false
                {[ "nullable" := JBool false ]}
                (argument_id "Query" "message" "colors") "nullable") as E.
  assert (kValidationSchema inferJSONSchemaType_default
            (ListT (NamedT Example.Color)) Example.Color false
            (JObj {[ "nullable" := JBool false ]})
            (argument_id "Query" "message" "colors") !! "nullable"
          = Some (JBool true)) as R by (vm_compute; reflexivity).
  rewrite R in E.
  assert (Some (JBool true) = ({[ "nullable" := JBool false ]} : JSObject) !! "nullable") as A.
  { apply E; try done; eexists; vm_compute; reflexivity. }
  vm_compute in A. discriminate A.
Qed.

(** ** Composite leaves *)

(** C3.  At a position whose named leaf is an input-object type the
    fragment refers to the type-level identifier of that type: as the
    [$ref] of the array items, under the outer type ["array"], when the
    position is a list, and as the [$ref] of the fragment itself, under
    the outer type ["object"], otherwise.  The fragment is nullable
    exactly when the position is not non-null, whatever the override.
    A type-level identifier is never a field-level one. *)
Theorem composite_leaf_reference infer type namedType isNonNull tv id :
  isInputObjectType namedType = true ->
  let r := kValidationSchema infer type namedType isNonNull tv id in
  (if isListType type
   then r !! "type" = Some (JStr "array")
        /\ exists items, r !! "items" = Some (JObj items)
             /\ items !! "$ref" = Some (JStr (type_id (name namedType)))
   else r !! "type" = Some (JStr "object")
        /\ r !! "$ref" = Some (JStr (type_id (name namedType))))
  /\ r !! "nullable" = Some (JBool (negb isNonNull))
  /\ (no_slash (name namedType) = true ->
      forall t f, type_id (name namedType) <> field_id t f).
Proof.
  intros Hin r. subst r. repeat split.
  - destruct (isListType type) eqn:Hl.
    + split.
      * apply kValidationSchema_built. unfold built_schema.
        rewrite Hin, Hl. by simplify_map_eq.
      * eexists. split.
        -- apply kValidationSchema_built. unfold built_schema.
           rewrite Hin, Hl. by simplify_map_eq.
        -- by simplify_map_eq.
    + split; apply kValidationSchema_built; unfold built_schema;
        rewrite Hin, Hl; by simplify_map_eq.
  - apply kValidationSchema_built. unfold built_schema. rewrite Hin.
    destruct (isListType type); by simplify_map_eq.
  - intros Hs t f. by apply type_id_not_field_id.
Qed.

Lemma composite_leaf_reference_witness :
  isInputObjectType Example.Filters = true
  /\ let r := kValidationSchema inferJSONSchemaType_default
                (ListT (NamedT Example.Filters)) Example.Filters false JNull
                (argument_id "Query" "messages" "all") in
     (r !! "type" = Some (JStr "array")
      /\ exists items, r !! "items" = Some (JObj items)
           /\ items !! "$ref" = Some (JStr (type_id "Filters")))
     /\ r !! "nullable" = Some (JBool true)
     /\ (no_slash "Filters" = true ->
         forall t f, type_id "Filters" <> field_id t f).
Proof.
  split; [reflexivity |].
  apply (composite_leaf_reference inferJSONSchemaType_default
           (ListT (NamedT Example.Filters)) Example.Filters false JNull
           (argument_id "Query" "messages" "all")).
  reflexivity.
Defined.

(** C8 (as amended).  At a position whose leaf is an input-object type,
    every key produced by the reference substitution keeps the value it
    has without an override; an override fragment is not dropped, it
    contributes exactly its keys that the substituted fragment lacks
    (inline constraints such as [properties] included). *)
Theorem composite_override_adds_missing_keys infer type namedType isNonNull
    (o : JSObject) id k :
  isInputObjectType namedType = true ->
  kValidationSchema infer type namedType isNonNull (JObj o) id !! k =
    match kValidationSchema infer type namedType isNonNull JNull id !! k with
    | Some v => Some v
    | None => o !! k
    end.
Proof.
  intros Hin. rewrite !kValidationSchema_lookup. simpl.
  rewrite (built_schema_composite infer type namedType isNonNull (JObj o) JNull id Hin).
  by destruct (built_schema _ _ _ _ _ _ !! k).
Qed.

Lemma composite_override_adds_missing_keys_witness :
  isInputObjectType Example.Filters = true
  /\ kValidationSchema inferJSONSchemaType_default (NamedT Example.Filters)
       Example.Filters false (JObj {[ "minProperties" := JNum 1 ]})
       (argument_id "Query" "messages" "filters") !! "minProperties" =
     match kValidationSchema inferJSONSchemaType_default (NamedT Example.Filters)
             Example.Filters false JNull
             (argument_id "Query" "messages" "filters") !! "minProperties" with
     | Some v => Some v
     | None => ({[ "minProperties" := JNum 1 ]} : JSObject) !! "minProperties"
     end.
Proof.
  split; [reflexivity |].
  apply (composite_override_adds_missing_keys inferJSONSchemaType_default).
  reflexivity.
Defined.

(** C8, counterexample.  The argument [filters: Filters] with the
    override [{ properties: { text: { minLength: 1 } } }]: the result
    holds the override's inline [properties], which the fragment built
    without an override lacks. *)
Lemma composite_override_contributes :
  ~ composite_override_contributes_nothing inferJSONSchemaType_default.
Proof.
  intros H.
  pose proof (H (NamedT Example.Filters) Example.Filters false
                {[ "properties" :=
                     JObj {[ "text" := JObj {[ "minLength" := JNum 1 ]} ]} ]}
                (argument_id "Query" "messages" "filters") eq_refl) as E.
  apply (f_equal (fun m : JSObject => m !! "properties")) in E.
  vm_compute in E. discriminate E.
Qed.

(** ** Loops *)

Lemma for_of_nil {A B} (body : B -> A -> M B) acc v :
  for_of [] body acc v = (inr acc, v).
Proof. done. Qed.

Lemma for_of_cons {A B} (body : B -> A -> M B) x r acc v :
  for_of (x :: r) body acc v =
    match body acc x v with
    | (inl e, v') => (inl e, v')
    | (inr acc', v') => for_of r body acc' v'
    end.
Proof. done. Qed.

(** ** Property sets *)

Lemma set_property_properties o k v :
  properties_of (set_property o k v)
  = <[k := v]> (properties_of o).
Proof.
  unfold properties_of at 1. unfold set_property, prop. simpl.
  by rewrite lookup_insert_eq.
Qed.

Lemma set_property_other o k v j :
  j <> "properties" -> set_property o k v !! j = o !! j.
Proof. intros H. unfold set_property. by rewrite lookup_insert_ne. Qed.

Lemma set_properties_other o bindings j :
  j <> "properties" -> set_properties o bindings !! j = o !! j.
Proof.
  intros H. revert o. induction bindings as [|[k v] l IH]; intros o; simpl; [done|].
  unfold set_properties in *. simpl. rewrite IH. by apply set_property_other.
Qed.

Lemma set_properties_absent o bindings k :
  k ∉ bindings.*1 ->
  properties_of (set_properties o bindings) !! k
  = properties_of o !! k.
Proof.
  revert o. induction bindings as [|[k' v] l IH]; intros o Hk; [done|].
  simpl in Hk. apply not_elem_of_cons in Hk as [Hne Hk].
  unfold set_properties in *. simpl. rewrite (IH _ Hk).
  rewrite set_property_properties. by rewrite lookup_insert_ne.
Qed.

Lemma set_properties_present o bindings k v :
  NoDup bindings.*1 -> (k, v) ∈ bindings ->
  properties_of (set_properties o bindings) !! k = Some v.
Proof.
  revert o. induction bindings as [|[k' v'] l IH]; intros o Hnd Hin.
  - by apply elem_of_nil in Hin.
  - simpl in Hnd. apply NoDup_cons in Hnd as [Hfresh Hnd].
    apply elem_of_cons in Hin as [Heq | Hin].
    + injection Heq as <- <-.
      pose proof (set_properties_absent (set_property o k v) l k Hfresh) as E.
      unfold set_properties in *. simpl. rewrite E, set_property_properties.
      by rewrite lookup_insert_eq.
    + unfold set_properties in *. simpl. by apply IH.
Qed.

Lemma set_properties_defined o bindings k :
  is_Some (properties_of (set_properties o bindings) !! k) ->
  k ∈ bindings.*1 \/ is_Some (properties_of o !! k).
Proof.
  destruct (decide (k ∈ bindings.*1)) as [|Hk]; [by left|].
  rewrite (set_properties_absent _ _ _ Hk). by right.
Qed.

(** ** The builders *)

Section BuilderFacts.

Variable infer : NamedType -> bool -> JSValue.

Lemma arguments_schema_bindings typeName fieldName fv arguments :
  arguments_schema infer typeName fieldName fv arguments
  = set_properties
      {[ "$id" := JStr (field_id typeName fieldName);
         "type" := JStr "object";
         "properties" := JObj ∅ ]}
      (map (fun a => (arg_name a, JObj (argument_schema infer typeName fieldName fv a)))
           arguments).
Proof.
  unfold arguments_schema, set_properties.
  generalize ({[ "$id" := JStr (field_id typeName fieldName);
                 "type" := JStr "object";
                 "properties" := JObj ∅ ]} : JSObject).
  induction arguments as [|a l IH]; intros o; simpl; [done|]. by rewrite IH.
Qed.

Lemma arguments_schema_id typeName fieldName fv arguments :
  arguments_schema infer typeName fieldName fv arguments !! "$id"
  = Some (JStr (field_id typeName fieldName)).
Proof. rewrite arguments_schema_bindings, set_properties_other; done. Qed.

Lemma arguments_schema_type typeName fieldName fv arguments :
  arguments_schema infer typeName fieldName fv arguments !! "type"
  = Some (JStr "object").
Proof. rewrite arguments_schema_bindings, set_properties_other; done. Qed.

Lemma arguments_schema_property typeName fieldName fv arguments a :
  NoDup (map arg_name arguments) -> a ∈ arguments ->
  properties_of (arguments_schema infer typeName fieldName fv arguments)
    !! arg_name a
  = Some (JObj (argument_schema infer typeName fieldName fv a)).
Proof.
  intros Hnd Hin. rewrite arguments_schema_bindings.
  apply set_properties_present.
  - by rewrite <- list_fmap_compose.
  - apply (list_elem_of_fmap_2 (fun a => (arg_name a, JObj (argument_schema infer typeName fieldName fv a)))). done.
Qed.

Lemma arguments_schema_no_other typeName fieldName fv arguments k :
  is_Some (properties_of (arguments_schema infer typeName fieldName fv arguments)
             !! k) ->
  k ∈ map arg_name arguments.
Proof.
  rewrite arguments_schema_bindings. intros H.
  apply set_properties_defined in H as [H | H].
  - by rewrite <- list_fmap_compose in H.
  - vm_compute in H. by destruct H.
Qed.

Lemma kBuildArgumentsSchema_run typeName fieldName field fv arguments v :
  args field = Some arguments ->
  kBuildArgumentsSchema infer typeName fieldName field fv v
  = (inr (arguments_schema infer typeName fieldName fv arguments),
     {| kAjv := kAjv v;
        history := history v ++ [OverrideFieldResolver typeName fieldName] |}).
Proof. intros H. unfold kBuildArgumentsSchema. by rewrite H. Qed.

Lemma argument_schema_id typeName fieldName fv a :
  argument_schema infer typeName fieldName fv a !! "$id"
  = Some (JStr (argument_id typeName fieldName (arg_name a))).
Proof.
  unfold argument_schema. destruct (arg_info a) as [[ty named] nn].
  apply kValidationSchema_id.
Qed.

Lemma field_step_run typeName schemaType tv tvs regs f field v :
  field_step infer typeName schemaType tv (tvs, regs) (f, field) v =
    if has_arguments field then
      (inr (tvs, regs ++ [arguments_schema infer typeName f
                            (field_validation tv f) (default [] (args field))]),
       {| kAjv := kAjv v;
          history := history v ++ [OverrideFieldResolver typeName f] |})
    else if isInputObjectKind (type_kind schemaType) then
      match kBuildInputTypeFieldSchema infer typeName f field (field_validation tv f) with
      | inl e => (inl e, v)
      | inr (Some s) => (inr (set_property tvs f (JObj s), regs), v)
      | inr None => (inr (tvs, regs), v)
      end
    else (inr (tvs, regs), v).
Proof.
  unfold field_step. destruct (has_arguments field) eqn:Ha.
  - unfold has_arguments in Ha. destruct (args field) as [[|a l]|] eqn:E; try done.
    unfold bind. by rewrite (kBuildArgumentsSchema_run _ _ _ _ (a :: l)).
  - destruct (isInputObjectKind (type_kind schemaType)); [|done].
    unfold bind, lift.
    by destruct (kBuildInputTypeFieldSchema _ _ _ _ _) as [e|[s|]].
Qed.

End BuilderFacts.

(** ** The graph walk *)

Lemma omap_cons' {A B} (f : A -> option B) x l :
  omap f (x :: l) = match f x with Some y => y :: omap f l | None => omap f l end.
Proof. done. Qed.

Lemma field_call_cons typeName f field l :
  omap (field_call typeName) ((f, field) :: l) =
    if has_arguments field
    then OverrideFieldResolver typeName f :: omap (field_call typeName) l
    else omap (field_call typeName) l.
Proof. rewrite omap_cons'. unfold field_call at 1. simpl. by destruct (has_arguments field). Qed.

Section WalkFacts.

Variable infer : NamedType -> bool -> JSValue.

Lemma fields_loop_success typeName schemaType tv fields :
  forall tvs regs v tvs' regs' v',
    for_of fields (field_step infer typeName schemaType tv) (tvs, regs) v
      = (inr (tvs', regs'), v') ->
    regs' = regs ++ omap (field_unit infer typeName tv) fields
    /\ (isInputObjectKind (type_kind schemaType) = true ->
        tvs' = set_properties tvs (omap (field_property infer typeName tv) fields))
    /\ history v' = history v ++ omap (field_call typeName) fields
    /\ kAjv v' = kAjv v.
Proof.
  induction fields as [|[f field] l IH]; intros tvs regs v tvs' regs' v' H.
  - injection H as <- <- <-. by rewrite !app_nil_r.
  - rewrite for_of_cons, field_step_run in H. rewrite !omap_cons'.
    unfold field_unit at 1, field_property at 1, field_call at 1. simpl.
    destruct (has_arguments field) eqn:Ha.
    + apply IH in H as (-> & Ht & -> & ->). simpl.
      rewrite <- !app_assoc. done.
    + destruct (isInputObjectKind (type_kind schemaType)) eqn:Hi.
      * destruct (kBuildInputTypeFieldSchema _ _ _ _ _) as [e|[s|]]; [done| |];
          apply IH in H as (-> & Ht & -> & ->); repeat split; done.
      * apply IH in H as (-> & Ht & -> & ->). repeat split; done.
Qed.

(** The loop over the fields of a type, whether it completes or throws. *)
Lemma fields_loop_calls typeName schemaType tv fields :
  forall acc v,
    let out := for_of fields (field_step infer typeName schemaType tv) acc v in
    exists n,
      history out.2 = history v ++ omap (field_call typeName) (take n fields)
      /\ kAjv out.2 = kAjv v.
Proof.
  induction fields as [|[f field] l IH]; intros [tvs regs] v out; subst out.
  - exists 0. simpl. by rewrite app_nil_r.
  - rewrite for_of_cons, field_step_run.
    destruct (has_arguments field) eqn:Ha.
    + destruct (IH (tvs, regs ++ [arguments_schema infer typeName f
                                   (field_validation tv f) (default [] (args field))])
                  {| kAjv := kAjv v;
                     history := history v ++ [OverrideFieldResolver typeName f] |})
        as (n & Hh & Hk).
      exists (S n). rewrite firstn_cons, field_call_cons, Ha.
      simpl in *. rewrite Hh, Hk. by rewrite <- app_assoc.
    + assert (forall acc', exists n,
        history (for_of l (field_step infer typeName schemaType tv) acc' v).2
        = history v ++ omap (field_call typeName) (take n ((f, field) :: l))
        /\ kAjv (for_of l (field_step infer typeName schemaType tv) acc' v).2 = kAjv v)
        as Hskip.
      { intros acc'. destruct (IH acc' v) as (n & Hh & Hk).
        exists (S n). by rewrite firstn_cons, field_call_cons, Ha. }
      destruct (isInputObjectKind (type_kind schemaType)); [|apply Hskip].
      destruct (kBuildInputTypeFieldSchema _ _ _ _ _) as [e|[s|]]; [|apply Hskip..].
      exists 0. simpl. by rewrite app_nil_r.
Qed.

Lemma type_step_success vs regs typeName schemaType v us v' :
  type_step infer vs regs (typeName, schemaType) v = (inr us, v') ->
  us = regs ++ type_units infer vs (typeName, schemaType)
  /\ history v' = history v ++ type_calls (typeName, schemaType)
  /\ kAjv v' = kAjv v.
Proof.
  unfold type_step, type_units, type_calls. simpl.
  destruct (getFields schemaType) as [fields|].
  2:{ intros H. injection H as <- <-. by rewrite !app_nil_r. }
  destruct (is_introspection typeName); simpl.
  { intros H. injection H as <- <-. by rewrite !app_nil_r. }
  unfold bind.
  destruct (for_of fields _ _ v) as [[e|[tvs' regs']] v1] eqn:E; [done|].
  apply fields_loop_success in E as (-> & Ht & Hh & Hk).
  destruct (isInputObjectKind (type_kind schemaType)) eqn:Hi;
    intros H; injection H as <- <-; repeat split; try done.
  - rewrite <- app_assoc. unfold type_schema. by rewrite Ht.
  - by rewrite app_nil_r.
Qed.

Lemma type_step_calls schema vs regs typeName schemaType v :
  (typeName, schemaType) ∈ schema ->
  let out := type_step infer vs regs (typeName, schemaType) v in
  exists ext,
    history out.2 = history v ++ ext
    /\ Forall (intercepts schema) ext
    /\ kAjv out.2 = kAjv v.
Proof.
  intros Hin out. subst out. unfold type_step.
  destruct (getFields schemaType) as [fields|] eqn:Hf.
  2:{ exists []. by rewrite app_nil_r. }
  destruct (is_introspection typeName) eqn:Hn; simpl.
  { exists []. by rewrite app_nil_r. }
  unfold bind.
  pose proof (fields_loop_calls typeName schemaType
                (type_validation vs typeName) fields
                (initial_type_schema typeName schemaType (type_validation vs typeName), regs)
                v) as (n & Hh & Hk).
  simpl in Hh, Hk.
  destruct (for_of fields _ _ v) as [[e|[tvs' regs']] v1] eqn:E; simpl in *.
  all: assert (Forall (intercepts schema) (omap (field_call typeName) (take n fields))) as HF.
  1,3: apply Forall_forall; intros c Hc;
    apply list_elem_of_omap in Hc as ([f field] & Hm & Hc);
    unfold field_call in Hc; simpl in Hc;
    destruct (has_arguments field) eqn:Ha; [|done];
    injection Hc as <-;
    exists typeName, schemaType, fields, f, field;
    repeat split; try done;
    by apply (subseteq_take n fields).
  - by exists (omap (field_call typeName) (take n fields)).
  - exists (omap (field_call typeName) (take n fields)).
    by destruct (isInputObjectKind (type_kind schemaType)).
Qed.

Lemma types_loop_success vs schema :
  forall regs v us v',
    for_of schema (type_step infer vs) regs v = (inr us, v') ->
    us = regs ++ units infer schema vs
    /\ history v' = history v ++ flat_map type_calls schema
    /\ kAjv v' = kAjv v.
Proof.
  induction schema as [|[typeName schemaType] l IH]; intros regs v us v' H.
  - injection H as <- <-. by rewrite !app_nil_r.
  - rewrite for_of_cons in H.
    destruct (type_step infer vs regs (typeName, schemaType) v)
      as [[e|regs1] v1] eqn:E; [done|].
    apply type_step_success in E as (-> & Hh & Hk).
    apply IH in H as (-> & -> & ->).
    unfold units. simpl. rewrite Hh, Hk, <- !app_assoc. done.
Qed.

Lemma types_loop_calls vs schema0 schema :
  schema ⊆ schema0 ->
  forall regs v,
    let out := for_of schema (type_step infer vs) regs v in
    exists ext,
      history out.2 = history v ++ ext
      /\ Forall (intercepts schema0) ext
      /\ kAjv out.2 = kAjv v.
Proof.
  induction schema as [|[typeName schemaType] l IH]; intros Hsub regs v out; subst out.
  - exists []. simpl. by rewrite app_nil_r.
  - rewrite for_of_cons.
    assert ((typeName, schemaType) ∈ schema0) as Hin by (apply Hsub; left).
    pose proof (type_step_calls schema0 vs regs typeName schemaType v Hin)
      as (ext & Hh & HF & Hk).
    destruct (type_step infer vs regs (typeName, schemaType) v)
      as [[e|regs1] v1] eqn:E; simpl in *.
    + by exists ext.
    + destruct (IH (fun x Hx => Hsub x (list_elem_of_further _ _ _ Hx)) regs1 v1)
        as (ext' & Hh' & HF' & Hk').
      exists (ext ++ ext'). rewrite Hh', Hh, Hk', Hk, <- app_assoc.
      repeat split; try done. by apply Forall_app.
Qed.

(** The walk, when it completes: the units, the interceptions, and an
    Ajv instance left alone. *)
Lemma collect_schemas_success schema vs v us v' :
  collect_schemas infer schema vs v = (inr us, v') ->
  us = units infer schema vs
  /\ history v' = history v ++ flat_map type_calls schema
  /\ kAjv v' = kAjv v.
Proof. intros H. by apply types_loop_success in H. Qed.

Lemma collect_schemas_calls schema vs v :
  let out := collect_schemas infer schema vs v in
  exists ext,
    history out.2 = history v ++ ext
    /\ Forall (intercepts schema) ext
    /\ kAjv out.2 = kAjv v.
Proof. by apply types_loop_calls. Qed.

End WalkFacts.

(** ** Identifiers of the collected units *)





Section UnitFacts.

Variable infer : NamedType -> bool -> JSValue.

Lemma unit_key_lookup (u : JSObject) v : u !! "$id" = Some v -> unit_key u = v.
Proof. intros H. unfold unit_key, prop. simpl. by rewrite H. Qed.

Lemma initial_type_schema_lookup typeName schemaType tv k v :
  ({[ "$id" := JStr (type_id typeName);
      "type" := JStr "object";
      "nullable" := JBool true;
      "properties" := JObj ∅ ]} : JSObject) !! k = Some v ->
  initial_type_schema typeName schemaType tv !! k = Some v.
Proof.
  intros H. unfold initial_type_schema.
  destruct (_ && _); [|done]. by apply lookup_union_Some_l.
Qed.

Lemma initial_type_schema_properties typeName schemaType tv :
  properties_of (initial_type_schema typeName schemaType tv) = ∅.
Proof.
  unfold properties_of, prop. simpl.
  by rewrite (initial_type_schema_lookup typeName schemaType tv "properties" (JObj ∅)).
Qed.

Lemma type_schema_lookup typeName schemaType tv fields k v :
  k <> "properties" ->
  ({[ "$id" := JStr (type_id typeName);
      "type" := JStr "object";
      "nullable" := JBool true;
      "properties" := JObj ∅ ]} : JSObject) !! k = Some v ->
  type_schema infer typeName schemaType tv fields !! k = Some v.
Proof.
  intros Hk H. unfold type_schema. rewrite set_properties_other; [|done].
  by apply initial_type_schema_lookup.
Qed.

Lemma type_schema_key typeName schemaType tv fields :
  unit_key (type_schema infer typeName schemaType tv fields) = JStr (type_id typeName).
Proof. apply unit_key_lookup. by apply type_schema_lookup. Qed.

Lemma arguments_schema_key typeName fieldName fv arguments :
  unit_key (arguments_schema infer typeName fieldName fv arguments)
  = JStr (field_id typeName fieldName).
Proof. apply unit_key_lookup, arguments_schema_id. Qed.

Lemma field_units_keys typeName tv (fields : list (string * Field)) :
  unit_key <$> omap (field_unit infer typeName tv) fields
  = JStr <$> omap (field_unit_id typeName) fields.
Proof.
  induction fields as [|[f field] l IH]; [done|].
  rewrite !omap_cons'. unfold field_unit at 1, field_unit_id at 1. simpl.
  destruct (has_arguments field); [|done].
  simpl. f_equal; [apply arguments_schema_key | apply IH].
Qed.

Lemma type_units_keys vs entry :
  unit_key <$> type_units infer vs entry = JStr <$> type_unit_ids entry.
Proof.
  unfold type_units, type_unit_ids.
  destruct (getFields entry.2) as [fields|]; [|done].
  destruct (negb (is_introspection entry.1)); [|done].
  rewrite !fmap_app, field_units_keys.
  destruct (isInputObjectKind (type_kind entry.2)); [|done].
  simpl. by rewrite type_schema_key.
Qed.

(** The identifiers of the collected units depend on the names of the
    type graph only. *)
Lemma units_keys schema vs :
  unit_key <$> units infer schema vs = JStr <$> unit_ids schema.
Proof.
  unfold units, unit_ids. induction schema as [|entry l IH]; [done|].
  simpl. by rewrite !fmap_app, IH, type_units_keys.
Qed.

End UnitFacts.

(** ** Distinct identifiers *)

Lemma unit_owner t t' id :
  no_slash t = true -> no_slash t' = true ->
  (id = type_id t \/ exists f, id = field_id t f) ->
  (id = type_id t' \/ exists f, id = field_id t' f) ->
  t = t'.
Proof.
  intros Ht Ht' [->|[f ->]] [H|[f' H]].
  - by apply type_id_inj.
  - by destruct (type_id_not_field_id t t' f' Ht).
  - symmetry in H. by destruct (type_id_not_field_id t' t f Ht').
  - by apply field_id_inj in H as [-> _].
Qed.

Lemma field_unit_ids_elem typeName (fields : list (string * Field)) id :
  id ∈ omap (field_unit_id typeName) fields ->
  exists f field, (f, field) ∈ fields /\ has_arguments field = true
                  /\ id = field_id typeName f.
Proof.
  intros H. apply list_elem_of_omap in H as ([f field] & Hin & H).
  unfold field_unit_id in H. simpl in H.
  destruct (has_arguments field) eqn:Ha; [|done].
  injection H as <-. by exists f, field.
Qed.

Lemma field_unit_ids_NoDup typeName (fields : list (string * Field)) :
  NoDup fields.*1 -> NoDup (omap (field_unit_id typeName) fields).
Proof.
  induction fields as [|[f field] l IH]; intros Hnd; [constructor|].
  simpl in Hnd. apply NoDup_cons in Hnd as [Hf Hnd].
  rewrite omap_cons'. unfold field_unit_id at 1. simpl.
  destruct (has_arguments field); [|by apply IH].
  apply NoDup_cons. split; [|by apply IH].
  intros H. apply field_unit_ids_elem in H as (f' & field' & Hin & _ & H).
  unfold field_id in H. apply String.app_inj, String.app_inj, String.app_inj in H.
  subst f'. apply Hf. by apply (list_elem_of_fmap_2 fst l (f, field')).
Qed.

Lemma type_unit_ids_elem entry id :
  id ∈ type_unit_ids entry ->
  id = type_id entry.1 \/ exists f, id = field_id entry.1 f.
Proof.
  unfold type_unit_ids.
  destruct (getFields entry.2) as [fields|]; [|by intros ?%elem_of_nil].
  destruct (negb (is_introspection entry.1)); [|by intros ?%elem_of_nil].
  intros [H|H]%elem_of_app.
  - apply field_unit_ids_elem in H as (f & _ & _ & _ & ->). right. by exists f.
  - destruct (isInputObjectKind (type_kind entry.2)); [|by apply elem_of_nil in H].
    apply list_elem_of_singleton in H. by left.
Qed.

Lemma type_unit_ids_NoDup entry :
  well_formed_type entry = true -> NoDup (type_unit_ids entry).
Proof.
  unfold well_formed_type, type_unit_ids. intros [Hs Hf]%andb_true_iff.
  destruct (getFields entry.2) as [fields|]; [|constructor].
  destruct (negb (is_introspection entry.1)); [|constructor].
  apply bool_decide_eq_true in Hf.
  apply NoDup_app. split; [by apply field_unit_ids_NoDup|]. split.
  - intros id H Ht. apply field_unit_ids_elem in H as (f & _ & _ & _ & ->).
    destruct (isInputObjectKind (type_kind entry.2)); [|by apply elem_of_nil in Ht].
    apply list_elem_of_singleton in Ht.
    symmetry in Ht. by destruct (type_id_not_field_id entry.1 entry.1 f Hs).
  - destruct (isInputObjectKind (type_kind entry.2)); [apply NoDup_singleton|constructor].
Qed.

Lemma unit_ids_elem schema id :
  id ∈ unit_ids schema -> exists entry, entry ∈ schema /\ id ∈ type_unit_ids entry.
Proof.
  unfold unit_ids. intros H. apply list_elem_of_In, in_flat_map in H as (entry & Hin & H).
  exists entry. by rewrite !list_elem_of_In.
Qed.

Lemma well_formed_type_of schema entry :
  well_formed schema = true -> entry ∈ schema -> well_formed_type entry = true.
Proof.
  intros [_ H]%andb_true_iff Hin. rewrite forallb_forall in H.
  by apply H, list_elem_of_In.
Qed.

Lemma well_formed_cons entry schema :
  well_formed (entry :: schema) = true ->
  (entry.1 ∉ schema.*1) /\ well_formed_type entry = true /\ well_formed schema = true.
Proof.
  unfold well_formed. simpl. intros [Hnd [Hw Hf]%andb_true_iff]%andb_true_iff.
  apply bool_decide_eq_true in Hnd. apply NoDup_cons in Hnd as [Hfresh Hnd].
  repeat split; try done. apply andb_true_iff. split; [|done].
  by apply bool_decide_eq_true.
Qed.

(** Within one pass no two units share an identifier. *)
Lemma unit_ids_NoDup schema :
  well_formed schema = true -> NoDup (unit_ids schema).
Proof.
  induction schema as [|entry l IH]; intros Hw; [constructor|].
  apply well_formed_cons in Hw as (Hfresh & Hwt & Hwl).
  unfold unit_ids. simpl. apply NoDup_app.
  split; [by apply type_unit_ids_NoDup|]. split; [|by apply IH].
  intros id H1 H2. apply unit_ids_elem in H2 as (entry' & Hin & H2).
  apply type_unit_ids_elem in H1. apply type_unit_ids_elem in H2.
  pose proof (well_formed_type_of l entry' Hwl Hin) as Hwt'.
  apply andb_true_iff in Hwt as [Hs _]. apply andb_true_iff in Hwt' as [Hs' _].
  apply Hfresh. rewrite (unit_owner _ _ id Hs Hs' H1 H2).
  by apply (list_elem_of_fmap_2 fst).
Qed.

Lemma keyed_functional {A} (l : list (string * A)) k x y :
  NoDup l.*1 -> (k, x) ∈ l -> (k, y) ∈ l -> x = y.
Proof.
  induction l as [|[k' z] l IH]; intros Hnd Hx Hy; [by apply elem_of_nil in Hx|].
  simpl in Hnd. apply NoDup_cons in Hnd as [Hfresh Hnd].
  apply elem_of_cons in Hx as [Hx|Hx]; apply elem_of_cons in Hy as [Hy|Hy].
  - congruence.
  - injection Hx as -> ->. destruct Hfresh. by apply (list_elem_of_fmap_2 fst l (k', y)).
  - injection Hy as -> ->. destruct Hfresh. by apply (list_elem_of_fmap_2 fst l (k', x)).
  - by apply IH.
Qed.

Lemma well_formed_lookup schema typeName st st' :
  well_formed schema = true ->
  (typeName, st) ∈ schema -> (typeName, st') ∈ schema -> st = st'.
Proof.
  intros [Hnd _]%andb_true_iff. apply bool_decide_eq_true in Hnd.
  by apply keyed_functional.
Qed.

Lemma well_formed_fields schema typeName st fields :
  well_formed schema = true -> (typeName, st) ∈ schema ->
  getFields st = Some fields -> NoDup fields.*1.
Proof.
  intros Hw Hin Hf. apply (well_formed_type_of _ _ Hw) in Hin.
  apply andb_true_iff in Hin as [_ H]. simpl in H. rewrite Hf in H.
  by apply bool_decide_eq_true in H.
Qed.

#[local] Instance JStr_inj : Inj (=) (=) JStr.
Proof. intros x y H. by injection H. Qed.

Section OnceFacts.

Variable infer : NamedType -> bool -> JSValue.

Lemma units_elem schema vs entry u :
  entry ∈ schema -> u ∈ type_units infer vs entry -> u ∈ units infer schema vs.
Proof.
  intros Hin Hu. unfold units. apply list_elem_of_In, in_flat_map.
  exists entry. by rewrite <- !list_elem_of_In.
Qed.

(** A collected unit is the only one under its identifier. *)
Lemma units_registered_once schema vs u id :
  well_formed schema = true ->
  u ∈ units infer schema vs -> unit_key u = JStr id ->
  registered_once (units infer schema vs) id u.
Proof.
  intros Hw Hin Hk. apply list_elem_of_lookup in Hin as [i Hi].
  exists i. repeat split; try done.
  intros j u' Hj Hk'.
  pose proof (unit_ids_NoDup schema Hw) as Hnd.
  apply (NoDup_fmap_2 JStr) in Hnd. rewrite <- (units_keys infer schema vs) in Hnd.
  apply (NoDup_lookup _ j i (JStr id) Hnd); rewrite list_lookup_fmap.
  - by rewrite Hj; simpl; rewrite Hk'.
  - by rewrite Hi; simpl; rewrite Hk.
Qed.

Lemma field_unit_elem schema vs typeName schemaType fields fieldName field arguments :
  (typeName, schemaType) ∈ schema ->
  is_introspection typeName = false ->
  getFields schemaType = Some fields ->
  (fieldName, field) ∈ fields ->
  args field = Some arguments -> arguments <> [] ->
  arguments_schema infer typeName fieldName
    (field_validation (type_validation vs typeName) fieldName) arguments
  ∈ units infer schema vs.
Proof.
  intros Hin Hn Hf Hfield Ha Hne.
  apply (units_elem schema vs (typeName, schemaType)); [done|].
  unfold type_units. simpl. rewrite Hf, Hn. simpl.
  apply elem_of_app. left. apply list_elem_of_omap.
  exists (fieldName, field). split; [done|].
  unfold field_unit, has_arguments. simpl. rewrite Ha.
  by destruct arguments.
Qed.

Lemma type_unit_elem schema vs typeName schemaType fields :
  (typeName, schemaType) ∈ schema ->
  is_introspection typeName = false ->
  getFields schemaType = Some fields ->
  isInputObjectKind (type_kind schemaType) = true ->
  type_schema infer typeName schemaType (type_validation vs typeName) fields
  ∈ units infer schema vs.
Proof.
  intros Hin Hn Hf Hi.
  apply (units_elem schema vs (typeName, schemaType)); [done|].
  unfold type_units. simpl. rewrite Hf, Hn, Hi. simpl.
  apply elem_of_app. right. by apply list_elem_of_singleton.
Qed.

End OnceFacts.

(** ** Registration and forced compilation *)

Section PassFacts.

Variable infer : NamedType -> bool -> JSValue.
Variable schema_valid : JSObject -> bool.
Variable compile_ok : gmap string JSObject -> JSObject -> bool.

Lemma addSchema_inr u key a a' :
  addSchema schema_valid u key a = inr a' ->
  exists k, key = JStr k /\ schemas a !! k = None
            /\ schemas a' = <[k := u]> (schemas a)
            /\ compiled a' = compiled a.
Proof.
  unfold addSchema. destruct key as [| | | |k| | |]; try done.
  destruct (schemas a !! k) eqn:E; [done|].
  destruct (schema_valid u); [|done].
  intros H. injection H as <-. by exists k.
Qed.

Lemma getSchema_inr key a a' :
  getSchema compile_ok key a = inr a' -> schemas a' = schemas a.
Proof.
  unfold getSchema. destruct key as [| | | |k| | |]; try (by intros [= <-]).
  destruct (schemas a !! k); [|by intros [= <-]].
  destruct (decide _); [by intros [= <-]|].
  destruct (compile_ok _ _); [by intros [= <-]|done].
Qed.

Lemma add_step_run u v a :
  kAjv v = Some a ->
  add_step schema_valid tt u v =
    match addSchema schema_valid u (unit_key u) a with
    | inl e => (inl e, {| kAjv := Some a;
                          history := history v ++ [AddSchema (unit_key u)] |})
    | inr a' => (inr tt, {| kAjv := Some a';
                            history := history v ++ [AddSchema (unit_key u)] |})
    end.
Proof.
  intros H. unfold add_step, bind, record, with_kAjv. simpl. rewrite H.
  by destruct (addSchema _ _ _ _).
Qed.

Lemma get_step_run u v a :
  kAjv v = Some a ->
  get_step compile_ok tt u v =
    match getSchema compile_ok (unit_key u) a with
    | inl e => (inl e, {| kAjv := Some a;
                          history := history v ++ [GetSchema (unit_key u)] |})
    | inr a' => (inr tt, {| kAjv := Some a';
                            history := history v ++ [GetSchema (unit_key u)] |})
    end.
Proof.
  intros H. unfold get_step, bind, record, with_kAjv. simpl. rewrite H.
  by destruct (getSchema _ _ _).
Qed.

(** The registration loop, whether it completes or throws. *)
Lemma add_loop us :
  forall v a, kAjv v = Some a ->
    let out := for_of us (add_step schema_valid) tt v in
    exists n a',
      history out.2 = history v ++ (AddSchema <$> (unit_key <$> take n us))
      /\ kAjv out.2 = Some a'
      /\ compiled a' = compiled a
      /\ (forall k s, schemas a' !! k = Some s ->
            schemas a !! k = Some s \/ (s ∈ us /\ unit_key s = JStr k))
      /\ (out.1 = inr tt ->
            n = length us
            /\ (forall k s, schemas a !! k = Some s -> schemas a' !! k = Some s)
            /\ forall u, u ∈ us ->
                 exists k, unit_key u = JStr k /\ schemas a' !! k = Some u).
Proof.
  induction us as [|u l IH]; intros v a Hv out; subst out.
  - exists 0, a. simpl. rewrite app_nil_r. repeat split; try done.
    + by left.
    + by intros u ?%elem_of_nil.
  - rewrite for_of_cons, (add_step_run u v a Hv).
    destruct (addSchema schema_valid u (unit_key u) a) as [e|a1] eqn:E.
    + exists 1, a. simpl. destruct l; repeat split; try done; by left.
    + apply addSchema_inr in E as (k & Hk & Hfree & Hs & Hc).
      destruct (IH {| kAjv := Some a1;
                      history := history v ++ [AddSchema (unit_key u)] |} a1 eq_refl)
        as (n & a' & Hh & Ha & Hc' & Hold & Hok).
      exists (S n), a'. simpl in *. rewrite Hh, <- app_assoc.
      split; [done|]. split; [done|]. split; [congruence|]. split.
      * intros k' s Hs'. destruct (Hold k' s Hs') as [H|[H1 H2]].
        -- rewrite Hs in H. destruct (decide (k = k')) as [<-|Hne].
           ++ rewrite lookup_insert_eq in H. injection H as <-.
              right. split; [left|done].
           ++ rewrite lookup_insert_ne in H by done. by left.
        -- right. split; [by right|done].
      * intros H. destruct (Hok H) as (-> & Hkeep & Hall).
        split; [done|]. split.
        -- intros k' s Hs'. apply Hkeep. rewrite Hs.
           rewrite lookup_insert_ne; [done|]. intros <-. congruence.
        -- intros u' Hu'.
           apply elem_of_cons in Hu' as [->|Hu']; [|by apply Hall].
           exists k. split; [done|]. apply Hkeep. rewrite Hs.
           by rewrite lookup_insert_eq.
Qed.

(** The compilation loop, whether it completes or throws. *)
Lemma get_loop us :
  forall v a, kAjv v = Some a ->
    let out := for_of us (get_step compile_ok) tt v in
    exists n a',
      history out.2 = history v ++ (GetSchema <$> (unit_key <$> take n us))
      /\ kAjv out.2 = Some a'
      /\ schemas a' = schemas a
      /\ (out.1 = inr tt -> n = length us).
Proof.
  induction us as [|u l IH]; intros v a Hv out; subst out.
  - exists 0, a. simpl. by rewrite app_nil_r.
  - rewrite for_of_cons, (get_step_run u v a Hv).
    destruct (getSchema compile_ok (unit_key u) a) as [e|a1] eqn:E.
    + exists 1, a. simpl. by destruct l.
    + apply getSchema_inr in E.
      destruct (IH {| kAjv := Some a1;
                      history := history v ++ [GetSchema (unit_key u)] |} a1 eq_refl)
        as (n & a' & Hh & Ha & Hs & Hok).
      exists (S n), a'. simpl in *. rewrite Hh, <- app_assoc.
      split; [done|]. split; [done|]. split; [congruence|].
      intros H. by rewrite (Hok H).
Qed.

(** The three phases of a pass. *)
Lemma registerValidationSchema_run schema vs v :
  registerValidationSchema infer schema_valid compile_ok schema vs v =
    match collect_schemas infer schema vs
            {| kAjv := Some new_Ajv; history := history v ++ [NewAjv] |} with
    | (inl e, v1) => (inl e, v1)
    | (inr us, v1) =>
        match for_of us (add_step schema_valid) tt v1 with
        | (inl e, v2) => (inl e, v2)
        | (inr _, v2) => for_of us (get_step compile_ok) tt v2
        end
    end.
Proof.
  unfold registerValidationSchema, bind, record, set_kAjv. simpl.
  destruct (collect_schemas _ _ _ _) as [[e|us] v1]; [done|].
  by destruct (for_of us _ tt v1) as [[e|[]] v2].
Qed.

End PassFacts.

(** ** What a pass does not depend on *)

Lemma oblivious_ret {A} (x : A) : oblivious (ret x).
Proof. by intros v1 v2 H. Qed.

Lemma oblivious_throw {A} e : oblivious (throw (A := A) e).
Proof. by intros v1 v2 H. Qed.

Lemma oblivious_lift {A} (r : Error + A) : oblivious (lift r).
Proof. by intros v1 v2 H. Qed.

Lemma oblivious_record c : oblivious (record c).
Proof. by intros v1 v2 H. Qed.

Lemma oblivious_set_kAjv a : oblivious (set_kAjv a).
Proof. by intros v1 v2 H. Qed.

Lemma oblivious_with_kAjv op : oblivious (with_kAjv op).
Proof.
  intros v1 v2 H. unfold with_kAjv. rewrite H.
  destruct (kAjv v2) as [a|] eqn:E; [|by simpl; rewrite E].
  destruct (op a); [|done]. simpl. by rewrite E.
Qed.

Lemma oblivious_bind {A B} (m : M A) (f : A -> M B) :
  oblivious m -> (forall x, oblivious (f x)) -> oblivious (bind m f).
Proof.
  intros Hm Hf v1 v2 H. unfold bind. destruct (Hm v1 v2 H) as [H1 H2].
  destruct (m v1) as [[e1|x1] w1], (m v2) as [[e2|x2] w2]; simpl in *;
    simplify_eq; [done | by apply Hf].
Qed.

Lemma oblivious_for_of {A B} (body : B -> A -> M B) l :
  (forall acc x, oblivious (body acc x)) -> forall acc, oblivious (for_of l body acc).
Proof.
  intros Hb. induction l as [|x l IH]; intros acc; simpl.
  - apply oblivious_ret.
  - apply oblivious_bind; [apply Hb | apply IH].
Qed.

Section Oblivious.

Variable infer : NamedType -> bool -> JSValue.
Variable schema_valid : JSObject -> bool.
Variable compile_ok : gmap string JSObject -> JSObject -> bool.

Lemma oblivious_kBuildArgumentsSchema typeName fieldName field fv :
  oblivious (kBuildArgumentsSchema infer typeName fieldName field fv).
Proof.
  unfold kBuildArgumentsSchema. destruct (args field); [|apply oblivious_throw].
  apply oblivious_bind; [apply oblivious_record | intros; apply oblivious_ret].
Qed.

Lemma oblivious_field_step typeName schemaType tv acc entry :
  oblivious (field_step infer typeName schemaType tv acc entry).
Proof.
  destruct acc as [tvs regs], entry as [f field]. unfold field_step.
  destruct (has_arguments field).
  - apply oblivious_bind; [apply oblivious_kBuildArgumentsSchema|].
    intros; apply oblivious_ret.
  - destruct (isInputObjectKind _); [|apply oblivious_ret].
    apply oblivious_bind; [apply oblivious_lift|].
    intros [s|]; apply oblivious_ret.
Qed.

Lemma oblivious_type_step vs regs entry :
  oblivious (type_step infer vs regs entry).
Proof.
  destruct entry as [typeName schemaType]. unfold type_step.
  destruct (getFields schemaType); [|apply oblivious_ret].
  destruct (negb _); [|apply oblivious_ret].
  apply oblivious_bind.
  - apply oblivious_for_of. intros. apply oblivious_field_step.
  - intros [tvs regs']. destruct (isInputObjectKind _); apply oblivious_ret.
Qed.

Lemma oblivious_collect_schemas schema vs :
  oblivious (collect_schemas infer schema vs).
Proof. apply oblivious_for_of. intros. apply oblivious_type_step. Qed.

Lemma oblivious_add_step acc u : oblivious (add_step schema_valid acc u).
Proof.
  apply oblivious_bind; [apply oblivious_record|].
  intros. apply oblivious_with_kAjv.
Qed.

Lemma oblivious_get_step acc u : oblivious (get_step compile_ok acc u).
Proof.
  apply oblivious_bind; [apply oblivious_record|].
  intros. apply oblivious_with_kAjv.
Qed.

(** A pass starts from a new Ajv instance: neither its outcome nor the
    instance it leaves depends on the validator it is run on. *)
Lemma registerValidationSchema_fresh schema vs v1 v2 :
  (registerValidationSchema infer schema_valid compile_ok schema vs v1).1
  = (registerValidationSchema infer schema_valid compile_ok schema vs v2).1
  /\ kAjv (registerValidationSchema infer schema_valid compile_ok schema vs v1).2
     = kAjv (registerValidationSchema infer schema_valid compile_ok schema vs v2).2.
Proof.
  assert (oblivious
            (schemasToRegister <- collect_schemas infer schema vs ;;
             for_of schemasToRegister (add_step schema_valid) tt ;;
             for_of schemasToRegister (get_step compile_ok) tt)) as H.
  { apply oblivious_bind; [apply oblivious_collect_schemas|]. intros us.
    apply oblivious_bind.
    - apply oblivious_for_of. intros. apply oblivious_add_step.
    - intros _. apply oblivious_for_of. intros. apply oblivious_get_step. }
  apply (H {| kAjv := Some new_Ajv; history := history v1 ++ [NewAjv] |}
           {| kAjv := Some new_Ajv; history := history v2 ++ [NewAjv] |}).
  done.
Qed.

End Oblivious.

(** ** Fields of input-object types *)

Section InputFieldFacts.

Variable infer : NamedType -> bool -> JSValue.


Lemma field_property_keys typeName tv (fields : list (string * Field)) k :
  k ∈ (omap (field_property infer typeName tv) fields).*1 ->
  exists field, (k, field) ∈ fields
                /\ is_Some (field_property infer typeName tv (k, field)).
Proof.
  intros H. apply list_elem_of_fmap in H as ([k' s] & -> & H). simpl.
  apply list_elem_of_omap in H as ([f field] & Hin & H).
  assert (f = k') as ->.
  { unfold field_property in H. simpl in H.
    destruct (has_arguments field); [done|].
    destruct (kBuildInputTypeFieldSchema _ _ _ _ _) as [|[|]]; try done.
    by injection H. }
  exists field. split; [done|]. by rewrite H.
Qed.

Lemma field_property_NoDup typeName tv (fields : list (string * Field)) :
  NoDup fields.*1 -> NoDup (omap (field_property infer typeName tv) fields).*1.
Proof.
  induction fields as [|[f field] l IH]; intros Hnd; [constructor|].
  simpl in Hnd. apply NoDup_cons in Hnd as [Hfresh Hnd].
  rewrite omap_cons'.
  destruct (field_property infer typeName tv (f, field)) as [[k s]|] eqn:E;
    [|by apply IH].
  assert (k = f) as ->.
  { unfold field_property in E. simpl in E.
    destruct (has_arguments field); [done|].
    destruct (kBuildInputTypeFieldSchema _ _ _ _ _) as [|[|]]; try done.
    by injection E. }
  simpl. apply NoDup_cons. split; [|by apply IH].
  intros H. apply field_property_keys in H as (field' & Hin & _).
  apply Hfresh. by apply (list_elem_of_fmap_2 fst l (f, field')).
Qed.

(** The property set of a type-level unit, field by field. *)
Lemma type_schema_property typeName schemaType tv fields f field :
  NoDup fields.*1 -> (f, field) ∈ fields ->
  properties_of (type_schema infer typeName schemaType tv fields) !! f
  = snd <$> field_property infer typeName tv (f, field).
Proof.
  intros Hnd Hin. unfold type_schema.
  destruct (field_property infer typeName tv (f, field)) as [[k s]|] eqn:E.
  - assert (k = f) as ->.
    { unfold field_property in E. simpl in E.
      destruct (has_arguments field); [done|].
      destruct (kBuildInputTypeFieldSchema _ _ _ _ _) as [|[|]]; try done.
      by injection E. }
    simpl. apply set_properties_present; [by apply field_property_NoDup|].
    apply list_elem_of_omap. by exists (f, field).
  - simpl. rewrite set_properties_absent.
    + by rewrite initial_type_schema_properties.
    + intros H. apply field_property_keys in H as (field' & Hin' & Hs).
      rewrite (keyed_functional fields f field' field Hnd Hin' Hin), E in Hs.
      by destruct Hs.
Qed.

Lemma type_schema_no_other typeName schemaType tv fields k :
  is_Some (properties_of (type_schema infer typeName schemaType tv fields) !! k) ->
  k ∈ fields.*1.
Proof.
  unfold type_schema. intros H. apply set_properties_defined in H as [H|H].
  - apply field_property_keys in H as (field & Hin & _).
    by apply (list_elem_of_fmap_2 fst fields (k, field)).
  - rewrite initial_type_schema_properties in H. by destruct H.
Qed.

End InputFieldFacts.



(** ** Fields with arguments *)

Lemma unshaped_fragment infer ty named nn id :
  is_undefined (prop (JObj (kValidationSchema infer ty named nn JNull id)) "type") = true ->
  kValidationSchema infer ty named nn JNull id
  = <["$id" := JStr id]> (own_props (infer named nn)).
Proof.
  unfold kValidationSchema, built_schema, prop. simpl.
  destruct (isInputObjectType named), (isListType ty); simpl; try done.
  all: by rewrite lookup_insert_ne, lookup_insert_ne, lookup_insert_eq.
Qed.

(** C6 (as amended).  Building the argument object of a field never
    throws, and every argument is a key of its property set, bound to
    the fragment synthesized for it: an argument with no override whose
    fragment has no inferred [type] is not left out, it is bound to the
    inferred fragment tagged with the argument's [$id]. *)
Theorem arguments_are_never_omitted infer typeName fieldName field fv arguments a v :
  args field = Some arguments ->
  NoDup (arg_name <$> arguments) ->
  a ∈ arguments ->
  exists s,
    kBuildArgumentsSchema infer typeName fieldName field fv v
    = (inr s, {| kAjv := kAjv v;
                 history := history v ++ [OverrideFieldResolver typeName fieldName] |})
    /\ properties_of s !! arg_name a
       = Some (JObj (argument_schema infer typeName fieldName fv a))
    /\ argument_schema infer typeName fieldName fv a !! "$id"
       = Some (JStr (argument_id typeName fieldName (arg_name a)))
    /\ (argument_validation fv a = JNull ->
        is_undefined
          (prop (JObj (argument_schema infer typeName fieldName fv a)) "type") = true ->
        argument_schema infer typeName fieldName fv a
        = <["$id" := JStr (argument_id typeName fieldName (arg_name a))]>
            (own_props (infer (arg_info a).1.2 (arg_info a).2))).
Proof.
  intros Hargs Hnd Hin.
  exists (arguments_schema infer typeName fieldName fv arguments).
  split; [by apply kBuildArgumentsSchema_run|].
  split; [by apply arguments_schema_property|].
  split; [apply argument_schema_id|].
  unfold argument_schema. destruct (arg_info a) as [[ty named] nn]. simpl.
  intros -> Hu. by apply unshaped_fragment.
Qed.

Lemma arguments_are_never_omitted_witness :
  exists s,
    kBuildArgumentsSchema inferJSONSchemaType_default "Query" "message"
      Example.message_field
      JNull Example.fresh
    = (inr s, {| kAjv := None;
                 history := [OverrideFieldResolver "Query" "message"] |})
    /\ properties_of s !! "color"
       = Some (JObj {[ "$id" := JStr (argument_id "Query" "message" "color") ]}).
Proof.
  destruct (arguments_are_never_omitted inferJSONSchemaType_default
              "Query" "message"
              Example.message_field
              JNull
              Example.message_arguments
              Example.color_argument
              Example.fresh eq_refl)
    as (s & Hrun & Hprop & _).
  - apply (bool_decide_unpack (NoDup _)). vm_compute. exact I.
  - apply list_elem_of_In. simpl. tauto.
  - exists s. split; [exact Hrun | exact Hprop].
Defined.

(** C6, counterexample.  [message(id: ID, color: Color)] without
    overrides: the fragment of [color] has no [type] and no override,
    and [color] is a key of the property set. *)
Lemma unshaped_argument_is_kept :
  ~ unshaped_argument_omitted inferJSONSchemaType_default.
Proof.
  intros H.
  pose proof (H "Query" "message" JNull
                Example.message_arguments
                Example.color_argument) as E.
  assert (properties_of
            (arguments_schema inferJSONSchemaType_default "Query" "message" JNull
               Example.message_arguments)
            !! "color" = None) as E'.
  { apply E; [|done|done]. apply list_elem_of_In. simpl. tauto. }
  vm_compute in E'. discriminate E'.
Qed.

(** ** A pass that completes *)

Section CompleteFacts.

Variable infer : NamedType -> bool -> JSValue.
Variable schema_valid : JSObject -> bool.
Variable compile_ok : gmap string JSObject -> JSObject -> bool.

(** When the whole pass returns, every collected unit is in the Ajv
    instance, under its [$id]. *)
Lemma registerValidationSchema_success schema vs v v' :
  registerValidationSchema infer schema_valid compile_ok schema vs v = (inr tt, v') ->
  exists a,
    kAjv v' = Some a
    /\ forall u, u ∈ units infer schema vs ->
         exists k, unit_key u = JStr k /\ schemas a !! k = Some u.
Proof.
  rewrite registerValidationSchema_run.
  destruct (collect_schemas _ _ _ _) as [[e|us] v1] eqn:E1; [done|].
  apply collect_schemas_success in E1 as (-> & _ & Hk1). simpl in Hk1.
  pose proof (add_loop schema_valid (units infer schema vs) v1 new_Ajv Hk1)
    as (n & a1 & _ & Ha1 & _ & _ & Hok).
  destruct (for_of _ (add_step _) tt v1) as [[e|[]] v2] eqn:E2; [done|].
  simpl in *. destruct (Hok eq_refl) as (_ & _ & Hall).
  pose proof (get_loop compile_ok (units infer schema vs) v2 a1 Ha1)
    as (m & a2 & _ & Ha2 & Hs & _).
  intros E3. rewrite E3 in Ha2. simpl in *.
  exists a2. split; [done|]. intros u Hu. rewrite Hs. by apply Hall.
Qed.

End CompleteFacts.

Lemma intercepts_has_arguments schema typeName schemaType fields fieldName field :
  well_formed schema = true ->
  (typeName, schemaType) ∈ schema ->
  getFields schemaType = Some fields ->
  (fieldName, field) ∈ fields ->
  intercepts schema (OverrideFieldResolver typeName fieldName) ->
  has_arguments field = true.
Proof.
  intros Hw Hin Hf Hfield (t & st & fs & f & fd & Hc & Hin' & _ & Hf' & Hfield' & Ha).
  injection Hc as <- <-.
  rewrite <- (well_formed_lookup schema typeName schemaType st Hw Hin Hin') in Hf'.
  rewrite Hf in Hf'. injection Hf' as <-.
  pose proof (well_formed_fields schema typeName schemaType fields Hw Hin Hf) as Hnd.
  by rewrite (keyed_functional fields fieldName field fd Hnd Hfield Hfield').
Qed.

(** C7.  In a walk that completes, a field that declares at least one
    argument, on a type that is not an introspection type, yields one
    unit under the field-scoped identifier, and no other unit carries
    that identifier: an object schema whose properties are the fragments
    of the arguments, whatever the overrides; the field's resolver is
    overridden; and a pass that returns has that unit in the Ajv
    instance under that identifier.  No walk, complete or not, overrides
    the resolver of a field without arguments. *)
Theorem fields_with_arguments infer schema vs v :
  well_formed schema = true ->
  let out := collect_schemas infer schema vs v in
  (forall us typeName schemaType fields fieldName field arguments,
      out.1 = inr us ->
      (typeName, schemaType) ∈ schema -> is_introspection typeName = false ->
      getFields schemaType = Some fields -> (fieldName, field) ∈ fields ->
      args field = Some arguments -> arguments <> [] ->
      let fv := field_validation (type_validation vs typeName) fieldName in
      let u := arguments_schema infer typeName fieldName fv arguments in
      registered_once us (field_id typeName fieldName) u
      /\ u !! "type" = Some (JStr "object")
      /\ (forall k, is_Some (properties_of u !! k) -> k ∈ arg_name <$> arguments)
      /\ (NoDup (arg_name <$> arguments) ->
          forall a, a ∈ arguments ->
            properties_of u !! arg_name a
            = Some (JObj (argument_schema infer typeName fieldName fv a)))
      /\ OverrideFieldResolver typeName fieldName ∈ history out.2
      /\ (forall schema_valid compile_ok v0 v1,
            registerValidationSchema infer schema_valid compile_ok schema vs v0
              = (inr tt, v1) ->
            exists a, kAjv v1 = Some a
                      /\ schemas a !! field_id typeName fieldName = Some u))
  /\ (exists calls,
        history out.2 = history v ++ calls
        /\ forall typeName schemaType fields fieldName field,
             (typeName, schemaType) ∈ schema ->
             getFields schemaType = Some fields -> (fieldName, field) ∈ fields ->
             has_arguments field = false ->
             OverrideFieldResolver typeName fieldName ∉ calls).
Proof.
  intros Hw out. split.
  - intros us typeName schemaType fields fieldName field arguments
      Hout Hin Hn Hf Hfield Hargs Hne fv u.
    subst out. destruct (collect_schemas infer schema vs v) as [r v'] eqn:E.
    simpl in Hout. subst r.
    apply collect_schemas_success in E as (-> & Hh & _).
    assert (u ∈ units infer schema vs) as Hu by by eapply field_unit_elem.
    split; [by apply units_registered_once, arguments_schema_key|].
    split; [apply arguments_schema_type|].
    split; [apply arguments_schema_no_other|].
    split; [intros Hnd a Ha; by apply arguments_schema_property|].
    split.
    + simpl. rewrite Hh. apply elem_of_app. right.
      apply list_elem_of_In, in_flat_map. exists (typeName, schemaType).
      split; [by apply list_elem_of_In|]. apply list_elem_of_In.
      unfold type_calls. simpl. rewrite Hf, Hn. simpl.
      apply list_elem_of_omap. exists (fieldName, field). split; [done|].
      unfold field_call, has_arguments. simpl. rewrite Hargs. by destruct arguments.
    + intros schema_valid compile_ok v0 v1 Hrun.
      apply registerValidationSchema_success in Hrun as (a & Ha & Hall).
      exists a. split; [done|]. destruct (Hall u Hu) as (k & Hk & Hs).
      unfold u in Hk. rewrite arguments_schema_key in Hk. by injection Hk as <-.
  - destruct (collect_schemas_calls infer schema vs v) as (calls & Hh & HF & _).
    exists calls. split; [done|].
    intros typeName schemaType fields fieldName field Hin Hf Hfield Ha Hc.
    rewrite Forall_forall in HF. apply HF in Hc.
    rewrite (intercepts_has_arguments schema typeName schemaType fields fieldName field)
      in Ha; done.
Qed.

Lemma pair_eta {A B} (p : A * B) x : p.1 = x -> p = (x, p.2).
Proof. intros <-. by destruct p. Qed.

Lemma collect_schemas_returns infer schema vs v :
  returns (collect_schemas infer schema vs v).1 = true ->
  collect_schemas infer schema vs v
  = (inr (units infer schema vs), (collect_schemas infer schema vs v).2).
Proof.
  intros H. apply pair_eta.
  destruct (collect_schemas infer schema vs v) as [[e|us] v'] eqn:E; [done|].
  apply collect_schemas_success in E as (-> & _). done.
Qed.

Lemma fields_with_arguments_witness :
  well_formed Example.good_schema = true
  /\ registered_once
       (units inferJSONSchemaType_default Example.good_schema Example.good_validation)
       (field_id "Query" "message")
       (arguments_schema inferJSONSchemaType_default "Query" "message" JNull
          Example.message_arguments).
Proof.
  split; [reflexivity|].
  pose proof (fields_with_arguments inferJSONSchemaType_default Example.good_schema
                Example.good_validation Example.fresh eq_refl) as [H _].
  destruct (H (units inferJSONSchemaType_default Example.good_schema Example.good_validation)
              "Query" Example.QueryType Example.query_fields
              "message" Example.message_field Example.message_arguments)
    as [Hr _].
  - rewrite collect_schemas_returns; [reflexivity|]. vm_compute. reflexivity.
  - apply list_elem_of_In. simpl. tauto.
  - reflexivity.
  - reflexivity.
  - apply list_elem_of_In. simpl. tauto.
  - reflexivity.
  - discriminate.
  - exact Hr.
Defined.

(** ** Stability and distinctness of the identifiers *)



(** ** Type-level units *)

Lemma composite_reference infer type namedType isNonNull tv id :
  isInputObjectType namedType = true ->
  let r := kValidationSchema infer type namedType isNonNull tv id in
  if isListType type
  then r !! "type" = Some (JStr "array")
       /\ exists items, r !! "items" = Some (JObj items)
            /\ items !! "$ref" = Some (JStr (type_id (name namedType)))
  else r !! "type" = Some (JStr "object")
       /\ r !! "$ref" = Some (JStr (type_id (name namedType))).
Proof.
  intros Hin r. subst r. destruct (isListType type) eqn:Hl.
  - split.
    + apply kValidationSchema_built. unfold built_schema.
      rewrite Hin, Hl. by simplify_map_eq.
    + eexists. split.
      * apply kValidationSchema_built. unfold built_schema.
        rewrite Hin, Hl. by simplify_map_eq.
      * by simplify_map_eq.
  - split; apply kValidationSchema_built; unfold built_schema;
      rewrite Hin, Hl; by simplify_map_eq.
Qed.

(** C10.  In a walk that completes, an input-object type whose name does
    not start with ["__"] yields one unit under its type-level
    identifier, and no other unit carries that identifier.  Whatever the
    overrides, a [__typeValidation] fragment included, its [$id] is that
    identifier, its [type] is ["object"], its [nullable] is [true], and
    its properties are exactly the fragments built for its fields
    without arguments.  The reference of a position whose leaf is that
    type is the [$id] of that unit, and a pass that returns has that
    unit in the Ajv instance under that identifier. *)
Theorem input_type_unit infer schema vs v us v' typeName schemaType fields :
  collect_schemas infer schema vs v = (inr us, v') ->
  well_formed schema = true ->
  (typeName, schemaType) ∈ schema ->
  is_introspection typeName = false ->
  isInputObjectKind (type_kind schemaType) = true ->
  getFields schemaType = Some fields ->
  let tv := type_validation vs typeName in
  let u := type_schema infer typeName schemaType tv fields in
  registered_once us (type_id typeName) u
  /\ u !! "$id" = Some (JStr (type_id typeName))
  /\ u !! "type" = Some (JStr "object")
  /\ u !! "nullable" = Some (JBool true)
  /\ (forall f field, (f, field) ∈ fields ->
        properties_of u !! f = snd <$> field_property infer typeName tv (f, field))
  /\ (forall k, is_Some (properties_of u !! k) -> k ∈ fields.*1)
  /\ (forall type namedType isNonNull o id,
        isInputObjectType namedType = true -> name namedType = typeName ->
        let r := kValidationSchema infer type namedType isNonNull o id in
        if isListType type
        then exists items, r !! "items" = Some (JObj items)
                           /\ items !! "$ref" = Some (unit_key u)
        else r !! "$ref" = Some (unit_key u))
  /\ (forall schema_valid compile_ok v0 v1,
        registerValidationSchema infer schema_valid compile_ok schema vs v0
          = (inr tt, v1) ->
        exists a, kAjv v1 = Some a /\ schemas a !! type_id typeName = Some u).
Proof.
  intros Hrun Hw Hin Hn Hi Hf tv u.
  apply collect_schemas_success in Hrun as (-> & _).
  assert (u ∈ units infer schema vs) as Hu by by eapply type_unit_elem.
  pose proof (well_formed_fields schema typeName schemaType fields Hw Hin Hf) as Hnd.
  split; [by apply units_registered_once, type_schema_key|].
  split; [by apply type_schema_lookup|].
  split; [by apply type_schema_lookup|].
  split; [by apply type_schema_lookup|].
  split; [intros f field Hfield; by apply type_schema_property|].
  split; [apply type_schema_no_other|].
  split.
  - intros type namedType isNonNull o id Hc <- r.
    unfold u. rewrite type_schema_key.
    pose proof (composite_reference infer type namedType isNonNull o id Hc) as H.
    destruct (isListType type).
    + destruct H as (_ & items & H1 & H2). by exists items.
    + by destruct H.
  - intros schema_valid compile_ok v0 v1 Hpass.
    apply registerValidationSchema_success in Hpass as (a & Ha & Hall).
    exists a. split; [done|]. destruct (Hall u Hu) as (k & Hk & Hs).
    unfold u in Hk. rewrite type_schema_key in Hk. by injection Hk as <-.
Qed.

Lemma input_type_unit_witness :
  (well_formed Example.good_schema = true
   /\ is_introspection "Filters" = false
   /\ isInputObjectKind (type_kind Example.FiltersType) = true)
  /\ registered_once
       (units inferJSONSchemaType_default Example.good_schema Example.good_validation)
       (type_id "Filters")
       (type_schema inferJSONSchemaType_default "Filters" Example.FiltersType
          (type_validation Example.good_validation "Filters")
          Example.filters_fields).
Proof.
  split; [repeat split; reflexivity|].
  refine (proj1 (input_type_unit inferJSONSchemaType_default Example.good_schema
                   Example.good_validation Example.fresh _ _ "Filters"
                   Example.FiltersType _ _ eq_refl _ eq_refl eq_refl eq_refl)).
  - apply collect_schemas_returns. vm_compute. reflexivity.
  - apply list_elem_of_In. simpl. tauto.
Defined.

(** ** The order of the calls on the Ajv instance *)

Lemma phase_order (l1 l2 : list Call) i j x y :
  (l1 ++ l2) !! i = Some x -> (l1 ++ l2) !! j = Some y ->
  x ∉ l1 -> y ∉ l2 -> j < i.
Proof.
  intros Hi Hj Hx Hy.
  destruct (decide (i < length l1)) as [Hlt|Hge].
  - rewrite lookup_app_l in Hi by done. destruct Hx. by eapply list_elem_of_lookup_2.
  - destruct (decide (j < length l1)) as [Hlt'|Hge']; [lia|].
    rewrite lookup_app_r in Hj by lia. destruct Hy. by eapply list_elem_of_lookup_2.
Qed.

Lemma intercepts_not_GetSchema schema k : ~ intercepts schema (GetSchema k).
Proof. by intros (t & st & fs & f & fd & Hc & _). Qed.

(** C4.  The calls a pass makes are, in this order: the creation of the
    Ajv instance, the resolver overrides of the walk, the registrations
    and the compilations; no compilation precedes a registration.  When
    a compilation is attempted, every unit of the walk has been
    registered and is in the Ajv instance under its [$id]; a pass that
    returns has compiled every unit it registered. *)
Theorem registration_precedes_compilation infer schema_valid compile_ok schema vs v :
  let out := registerValidationSchema infer schema_valid compile_ok schema vs v in
  exists intercepted registered compiled_,
    history out.2
    = history v ++ (NewAjv :: intercepted ++ (AddSchema <$> registered))
               ++ (GetSchema <$> compiled_)
    /\ Forall (intercepts schema) intercepted
    /\ (compiled_ <> [] ->
        registered = unit_key <$> units infer schema vs
        /\ exists a, kAjv out.2 = Some a
             /\ forall u, u ∈ units infer schema vs ->
                  exists k, unit_key u = JStr k /\ schemas a !! k = Some u)
    /\ (out.1 = inr tt -> compiled_ = registered)
    /\ (forall i j k k',
          history out.2 !! (length (history v) + i) = Some (GetSchema k) ->
          history out.2 !! (length (history v) + j) = Some (AddSchema k') ->
          j < i).
Proof.
  intros out.
  assert (exists intercepted registered compiled_,
    history out.2
    = history v ++ (NewAjv :: intercepted ++ (AddSchema <$> registered))
               ++ (GetSchema <$> compiled_)
    /\ Forall (intercepts schema) intercepted
    /\ (compiled_ <> [] ->
        registered = unit_key <$> units infer schema vs
        /\ exists a, kAjv out.2 = Some a
             /\ forall u, u ∈ units infer schema vs ->
                  exists k, unit_key u = JStr k /\ schemas a !! k = Some u)
    /\ (out.1 = inr tt -> compiled_ = registered)) as (ic & rg & cp & Hh & HF & Hc & Hok).
  { subst out. rewrite registerValidationSchema_run.
    pose proof (collect_schemas_calls infer schema vs
                  {| kAjv := Some new_Ajv; history := history v ++ [NewAjv] |})
      as (ic & Hh1 & HF & Hk1).
    destruct (collect_schemas _ _ _ _) as [[e|us] v1] eqn:E1; simpl in Hh1, Hk1.
    { exists ic, [], []. simpl. rewrite Hh1, !app_nil_r, <- app_assoc. done. }
    apply collect_schemas_success in E1 as (-> & _).
    pose proof (add_loop schema_valid (units infer schema vs) v1 new_Ajv Hk1)
      as (n & a1 & Hh2 & Ha1 & _ & _ & Hadd).
    destruct (for_of _ (add_step _) tt v1) as [[e|[]] v2] eqn:E2; simpl in Hh2, Ha1.
    { exists ic, (unit_key <$> take n (units infer schema vs)), []. simpl.
      rewrite Hh2, Hh1, !app_nil_r, <- !app_assoc. done. }
    destruct (Hadd eq_refl) as (-> & _ & Hall). rewrite firstn_all in Hh2.
    pose proof (get_loop compile_ok (units infer schema vs) v2 a1 Ha1)
      as (m & a2 & Hh3 & Ha2 & Hs & Hget).
    exists ic, (unit_key <$> units infer schema vs),
           (unit_key <$> take m (units infer schema vs)).
    split; [|split; [done|split]].
    - simpl in *. rewrite Hh3, Hh2, Hh1, <- !app_assoc. done.
    - intros _. split; [done|]. exists a2. split; [done|].
      intros u Hu. rewrite Hs. by apply Hall.
    - intros H. simpl in Hget. by rewrite (Hget H), firstn_all. }
  exists ic, rg, cp.
  split; [done|]. split; [done|]. split; [done|]. split; [done|].
  intros i j k k' Hi Hj. rewrite Hh in Hi, Hj.
  rewrite lookup_app_r in Hi, Hj by lia.
  replace (length (history v) + i - length (history v)) with i in Hi by lia.
  replace (length (history v) + j - length (history v)) with j in Hj by lia.
  apply (phase_order _ _ i j _ _ Hi Hj).
  - intros [H|H]%elem_of_cons; [done|].
    apply elem_of_app in H as [H|H].
    + rewrite Forall_forall in HF. by apply HF, intercepts_not_GetSchema in H.
    + by apply list_elem_of_fmap in H as (? & ? & _).
  - by intros (? & ? & _)%list_elem_of_fmap.
Qed.

(** ** A pass that fails *)

(** C2 (as amended).  When a pass fails, the validator holds the Ajv
    instance created at the start of that pass, not the one installed
    before: the instance is the same whatever validator the pass was run
    on, and every schema in it is a unit of the failed pass, registered
    before the failure.  The failure reaches the caller. *)
Theorem failed_pass_installs_its_own_instance infer schema_valid compile_ok
    schema vs v e v' :
  registerValidationSchema infer schema_valid compile_ok schema vs v = (inl e, v') ->
  exists a,
    kAjv v' = Some a
    /\ (forall v0,
          registerValidationSchema infer schema_valid compile_ok schema vs v0
          = (inl e, (registerValidationSchema infer schema_valid compile_ok schema vs v0).2)
          /\ kAjv (registerValidationSchema infer schema_valid compile_ok schema vs v0).2
             = Some a)
    /\ (forall k s, schemas a !! k = Some s ->
          s ∈ units infer schema vs /\ unit_key s = JStr k).
Proof.
  intros Hrun.
  assert (exists a, kAjv v' = Some a
            /\ forall k s, schemas a !! k = Some s ->
                 s ∈ units infer schema vs /\ unit_key s = JStr k) as (a & Ha & Hs).
  { rewrite registerValidationSchema_run in Hrun.
    pose proof (collect_schemas_calls infer schema vs
                  {| kAjv := Some new_Ajv; history := history v ++ [NewAjv] |})
      as (ic & _ & _ & Hk1).
    destruct (collect_schemas _ _ _ _) as [[e1|us] v1] eqn:E1; simpl in Hk1.
    { injection Hrun as <- <-. exists new_Ajv. split; [done|]. intros k s H.
      unfold new_Ajv in H. simpl in H. by rewrite lookup_empty in H. }
    apply collect_schemas_success in E1 as (-> & _).
    pose proof (add_loop schema_valid (units infer schema vs) v1 new_Ajv Hk1)
      as (n & a1 & _ & Ha1 & _ & Hold & _).
    assert (forall k s, schemas a1 !! k = Some s ->
              s ∈ units infer schema vs /\ unit_key s = JStr k) as Hs1.
    { intros k s H. destruct (Hold k s H) as [H'|H']; [|done].
      unfold new_Ajv in H'. simpl in H'. by rewrite lookup_empty in H'. }
    destruct (for_of _ (add_step _) tt v1) as [[e2|[]] v2] eqn:E2; simpl in Ha1.
    { injection Hrun as <- <-. by exists a1. }
    pose proof (get_loop compile_ok (units infer schema vs) v2 a1 Ha1)
      as (m & a2 & _ & Ha2 & Hs2 & _).
    rewrite Hrun in Ha2. simpl in Ha2. exists a2. split; [done|].
    intros k s H. rewrite Hs2 in H. by apply Hs1. }
  exists a. split; [done|]. split; [|done].
  intros v0.
  destruct (registerValidationSchema_fresh infer schema_valid compile_ok schema vs v0 v)
    as [H1 H2].
  rewrite Hrun in H1, H2. simpl in H1, H2. split; [|by rewrite H2].
  destruct (registerValidationSchema _ _ _ _ _ v0) as [r w]. simpl in *. by subst r.
Qed.

Lemma failed_pass_installs_its_own_instance_witness :
  (Example.run Example.good_schema Example.bad_validation Example.fresh).1
  = inl (MER_VALIDATION_ERR_FIELD_TYPE_UNDEFINED (JStr (field_id "Filters" "color")))
  /\ exists a,
       kAjv (Example.run Example.good_schema Example.bad_validation Example.fresh).2
       = Some a.
Proof.
  assert ((Example.run Example.good_schema Example.bad_validation Example.fresh).1
          = inl (MER_VALIDATION_ERR_FIELD_TYPE_UNDEFINED
                   (JStr (field_id "Filters" "color")))) as E
    by (vm_compute; reflexivity).
  split; [exact E|].
  destruct (failed_pass_installs_its_own_instance inferJSONSchemaType_default
              Example.accept_all Example.compile_all
              Example.good_schema Example.bad_validation Example.fresh _ _
              (pair_eta _ _ E)) as (a & Ha & _).
  exists a. exact Ha.
Defined.

(** C2, counterexample.  A pass over the example schema with the
    override [{ Filters: { text: { minLength: 1 } } }] returns; a second
    pass with [{ Filters: { color: { minLength: 1 } } }], an override on
    a field whose type is not inferred, throws during the walk.  After
    it the Ajv instance of the validator no longer holds the unit of
    [Filters] that the first pass had registered. *)
Lemma failed_pass_drops_registry :
  ~ failed_pass_keeps_registry inferJSONSchemaType_default
      Example.accept_all Example.compile_all.
Proof.
  intros H.
  pose (first := Example.run Example.good_schema Example.good_validation Example.fresh).
  pose (second := Example.run Example.good_schema Example.bad_validation first.2).
  assert (first.1 = inr tt) as E1 by (vm_compute; reflexivity).
  assert (second.1 = inl (MER_VALIDATION_ERR_FIELD_TYPE_UNDEFINED
                            (JStr (field_id "Filters" "color")))) as E2
    by (vm_compute; reflexivity).
  pose proof (H Example.good_schema Example.good_validation
                Example.good_schema Example.bad_validation
                Example.fresh first.2 second.2 _
                (pair_eta _ _ E1) (pair_eta _ _ E2)) as E.
  apply (f_equal (fun o : option Ajv =>
                    match o with
                    | Some a => bool_decide (is_Some (schemas a !! type_id "Filters"))
                    | None => false
                    end)) in E.
  vm_compute in E. discriminate E.
Qed.

(** * Further facts *)

(** ** Lists of a primitive leaf *)

Lemma prop_items_no_own tv : own_props tv = ∅ -> prop tv "items" = JUndefined.
Proof.
  intros H. unfold prop. rewrite H, lookup_empty.
  destruct tv; try done; by destruct (decide _).
Qed.

(** X1.  At a list position whose leaf is not an input-object type the
    fragment has [type] ["array"] and is nullable exactly when the
    position is not non-null.  Its [items] are, key by key, the items of
    the override when it has the key, else the items the inference
    returned, else the fragment inferred for the leaf -- inferred with
    the non-null flag of the list position itself. *)
Theorem primitive_list_fragment infer type namedType isNonNull o id :
  isInputObjectType namedType = false ->
  isListType type = true ->
  let tv := or_null o in
  let r := kValidationSchema infer type namedType isNonNull tv id in
  r !! "type" = Some (JStr "array")
  /\ r !! "nullable" = Some (JBool (negb isNonNull))
  /\ exists items,
       r !! "items" = Some (JObj items)
       /\ forall k,
            items !! k =
              match (if not_null tv then own_props (prop tv "items") !! k else None) with
              | Some v => Some v
              | None =>
                  match own_props (prop (infer namedType isNonNull) "items") !! k with
                  | Some v => Some v
                  | None => own_props (infer namedType isNonNull) !! k
                  end
              end.
Proof.
  intros Hin Hl tv r. subst r.
  split; [|split].
  - apply kValidationSchema_built. unfold built_schema. rewrite Hin, Hl.
    by simplify_map_eq.
  - apply kValidationSchema_built. unfold built_schema. rewrite Hin, Hl.
    by simplify_map_eq.
  - eexists. split.
    + apply kValidationSchema_built. unfold built_schema. rewrite Hin, Hl.
      by simplify_map_eq.
    + intros k.
      assert (prop (JObj (<["$id" := JStr id]> (own_props (infer namedType isNonNull))))
                "items" = prop (infer namedType isNonNull) "items") as ->.
      { unfold prop. simpl. rewrite lookup_insert_ne by done.
        destruct (own_props (infer namedType isNonNull) !! "items") eqn:E; [done|].
        destruct (infer namedType isNonNull); try done; by destruct (decide _). }
      destruct (not_null tv); rewrite ?union_lookup; [|done].
      by destruct (own_props (prop tv "items") !! k).
Qed.

Lemma primitive_list_fragment_witness :
  (isInputObjectType Example.GraphQLString = false
   /\ isListType (ListT (NamedT Example.GraphQLString)) = true)
  /\ let r := kValidationSchema inferJSONSchemaType_default
                (ListT (NamedT Example.GraphQLString)) Example.GraphQLString true
                (or_null (JObj {[ "items" := JObj {[ "minLength" := JNum 3 ]} ]}))
                (argument_id "Query" "message" "tags") in
     r !! "type" = Some (JStr "array")
     /\ r !! "nullable" = Some (JBool false).
Proof.
  split; [split; reflexivity|].
  destruct (primitive_list_fragment inferJSONSchemaType_default
              (ListT (NamedT Example.GraphQLString)) Example.GraphQLString true
              (JObj {[ "items" := JObj {[ "minLength" := JNum 3 ]} ]})
              (argument_id "Query" "message" "tags") eq_refl eq_refl)
    as (Ht & Hn & _).
  split; [exact Ht | exact Hn].
Defined.

(** X2.  An override without own enumerable properties, such as a
    validation function, leaves the synthesized fragment as it is
    without an override. *)
Theorem propertyless_override_is_ignored infer type namedType isNonNull tv id :
  truthy tv = true ->
  own_props tv = ∅ ->
  kValidationSchema infer type namedType isNonNull tv id
  = kValidationSchema infer type namedType isNonNull JNull id.
Proof.
  intros Ht Ho. unfold kValidationSchema, built_schema.
  rewrite (prop_items_no_own tv Ho), Ho. simpl.
  destruct (not_null tv); rewrite ?(left_id_L ∅ (∪)), ?(right_id_L ∅ (∪)); done.
Qed.

Lemma propertyless_override_is_ignored_witness :
  (truthy (JFun "check") = true /\ own_props (JFun "check") = ∅)
  /\ kValidationSchema inferJSONSchemaType_default
       (ListT (NamedT Example.GraphQLString)) Example.GraphQLString false
       (JFun "check") (argument_id "Query" "message" "id")
     = kValidationSchema inferJSONSchemaType_default
         (ListT (NamedT Example.GraphQLString)) Example.GraphQLString false
         JNull (argument_id "Query" "message" "id").
Proof.
  split; [split; reflexivity|].
  apply (propertyless_override_is_ignored inferJSONSchemaType_default); reflexivity.
Defined.

(** ** The keys of an argument object *)

(** X3.  The argument object of a field has the keys [$id], [type] and
    [properties] and no other: a key of the field-level override, which
    is read by argument name only, never becomes a keyword of the
    object. *)
Theorem arguments_schema_keys infer typeName fieldName field fv arguments v k :
  args field = Some arguments ->
  exists s v',
    kBuildArgumentsSchema infer typeName fieldName field fv v = (inr s, v')
    /\ (is_Some (s !! k) <-> k = "$id" \/ k = "type" \/ k = "properties")
    /\ s !! "$id" = Some (JStr (field_id typeName fieldName))
    /\ s !! "type" = Some (JStr "object").
Proof.
  intros Hargs. eexists _, _. split; [by apply kBuildArgumentsSchema_run|].
  split; [|split; [apply arguments_schema_id | apply arguments_schema_type]].
  destruct (decide (k = "properties")) as [->|Hk].
  - split; [by auto|]. intros _. rewrite arguments_schema_bindings.
    generalize (map (fun a => (arg_name a, JObj (argument_schema infer typeName fieldName fv a)))
                  arguments).
    intros l. destruct l as [|[k' x] l] using rev_ind; [by eexists|].
    unfold set_properties. rewrite fold_left_app. simpl.
    unfold set_property. rewrite lookup_insert_eq. by eexists.
  - rewrite arguments_schema_bindings, set_properties_other by done.
    destruct (decide (k = "$id")) as [->|H1]; [split; [by auto | by eexists]|].
    destruct (decide (k = "type")) as [->|H2]; [split; [by auto | by eexists]|].
    split; [|by intros [?|[?|?]]].
    intros [x Hx]. by simplify_map_eq.
Qed.

Lemma arguments_schema_keys_witness :
  exists s v',
    kBuildArgumentsSchema inferJSONSchemaType_default "Query" "message"
      Example.message_field (JObj {[ "minProperties" := JNum 1 ]}) Example.fresh
    = (inr s, v')
    /\ s !! "minProperties" = None.
Proof.
  destruct (arguments_schema_keys inferJSONSchemaType_default "Query" "message"
              Example.message_field (JObj {[ "minProperties" := JNum 1 ]})
              Example.message_arguments Example.fresh "minProperties" eq_refl)
    as (s & v' & Hrun & Hk & _).
  exists s, v'. split; [exact Hrun|].
  destruct (s !! "minProperties") eqn:E; [|reflexivity].
  destruct (proj1 Hk (ex_intro _ _ eq_refl)) as [H|[H|H]]; discriminate H.
Defined.

(** ** When the walk throws *)

Section OutcomeFacts.

Variable infer : NamedType -> bool -> JSValue.










End OutcomeFacts.




(** ** How a pass can fail *)

Section FailureFacts.

Variable infer : NamedType -> bool -> JSValue.
Variable schema_valid : JSObject -> bool.
Variable compile_ok : gmap string JSObject -> JSObject -> bool.

Lemma addSchema_inl u key a e :
  addSchema schema_valid u key a = inl e ->
  ((forall k, key <> JStr k) /\ e = AjvError KeyNotString key)
  \/ (exists k, key = JStr k /\ is_Some (schemas a !! k) /\ e = AjvError KeyExists key)
  \/ (exists k, key = JStr k /\ schema_valid u = false /\ e = AjvError SchemaInvalid key).
Proof.
  unfold addSchema. destruct key as [| | | |k| | |]; try (intros [= <-]; by left).
  all: try done.
  destruct (schemas a !! k) eqn:E.
  - intros [= <-]. right. left. exists k. by rewrite E.
  - destruct (schema_valid u) eqn:Hv; [done|].
    intros [= <-]. right. right. by exists k.
Qed.

Lemma getSchema_inl key a e :
  getSchema compile_ok key a = inl e ->
  exists k schema, key = JStr k /\ schemas a !! k = Some schema
                   /\ compile_ok (schemas a) schema = false
                   /\ e = AjvError CompileFailed key.
Proof.
  unfold getSchema. destruct key as [| | | |k| | |]; try done.
  destruct (schemas a !! k) as [schema|] eqn:E; [|done].
  destruct (decide _); [done|].
  destruct (compile_ok _ _) eqn:Hc; [done|].
  intros [= <-]. by exists k, schema.
Qed.


Lemma get_loop_inl us :
  forall v a e v',
    kAjv v = Some a ->
    for_of us (get_step compile_ok) tt v = (inl e, v') ->
    exists u k schema,
      u ∈ us /\ unit_key u = JStr k /\ schemas a !! k = Some schema
      /\ compile_ok (schemas a) schema = false
      /\ e = AjvError CompileFailed (unit_key u).
Proof.
  induction us as [|u l IH]; intros v a e v' Hv H; [done|].
  rewrite for_of_cons, (get_step_run compile_ok u v a Hv) in H.
  destruct (getSchema compile_ok (unit_key u) a) as [e1|a1] eqn:E.
  - injection H as <- <-. apply getSchema_inl in E as (k & schema & Hk & Hs & Hc & ->).
    exists u, k, schema. split; [left|done].
  - apply getSchema_inr in E.
    destruct (IH {| kAjv := Some a1;
                    history := history v ++ [GetSchema (unit_key u)] |}
                a1 e v' eq_refl H) as (u' & k & schema & Hin & Hk & Hs & Hc & ->).
    rewrite E in Hs, Hc. exists u', k, schema. split; [by right|done].
Qed.

Lemma add_loop_not_field_error us :
  forall v e v' id,
    for_of us (add_step schema_valid) tt v = (inl e, v') ->
    e <> MER_VALIDATION_ERR_FIELD_TYPE_UNDEFINED id.
Proof.
  induction us as [|u l IH]; intros v e v' id H; [done|].
  rewrite for_of_cons in H.
  destruct (add_step schema_valid tt u v) as [[e1|[]] v1] eqn:E; [|by eapply IH].
  injection H as <- <-. unfold add_step, bind, record, with_kAjv in E. simpl in E.
  destruct (kAjv v) as [a|]; [|by injection E as <- _].
  destruct (addSchema schema_valid u (unit_key u) a) as [e2|a2] eqn:E'; [|done].
  injection E as <- _.
  by apply addSchema_inl in E' as [[_ ->]|[(? & _ & _ & ->)|(? & _ & _ & ->)]].
Qed.



End FailureFacts.


(** X7.  When a pass throws [MER_VALIDATION_ERR_FIELD_TYPE_UNDEFINED],
    nothing has been registered: the validator holds the new, empty Ajv
    instance, and the pass made no call on it; the calls it made are the
    creation of the instance and resolver overrides. *)
Theorem field_type_error_precedes_registration infer schema_valid compile_ok
    schema vs v id v' :
  registerValidationSchema infer schema_valid compile_ok schema vs v
  = (inl (MER_VALIDATION_ERR_FIELD_TYPE_UNDEFINED id), v') ->
  kAjv v' = Some new_Ajv
  /\ exists calls,
       history v' = history v ++ NewAjv :: calls
       /\ Forall (intercepts schema) calls.
Proof.
  intros Hrun. rewrite registerValidationSchema_run in Hrun.
  pose proof (collect_schemas_calls infer schema vs
                {| kAjv := Some new_Ajv; history := history v ++ [NewAjv] |})
    as (calls & Hh & HF & Hk1).
  destruct (collect_schemas _ _ _ _) as [[e1|us] v1] eqn:E1; simpl in Hh, Hk1.
  { injection Hrun as _ <-. split; [done|]. exists calls.
    by rewrite Hh, <- app_assoc. }
  destruct (for_of _ (add_step _) tt v1) as [[e2|[]] v2] eqn:E2.
  - injection Hrun as -> <-.
    by destruct (add_loop_not_field_error schema_valid us v1 _ _ id E2).
  - exfalso.
    pose proof (add_loop schema_valid us v1 new_Ajv Hk1) as (n & a1 & _ & Ha1 & _).
    rewrite E2 in Ha1. simpl in Ha1.
    apply (get_loop_inl compile_ok _ v2 a1) in Hrun as (? & ? & ? & _ & _ & _ & _ & ?);
      done.
Qed.


Lemma field_type_error_precedes_registration_witness :
  (Example.run Example.good_schema Example.bad_validation Example.fresh).1
  = inl (MER_VALIDATION_ERR_FIELD_TYPE_UNDEFINED (JStr (field_id "Filters" "color")))
  /\ kAjv (Example.run Example.good_schema Example.bad_validation Example.fresh).2
     = Some new_Ajv.
Proof.
  assert ((Example.run Example.good_schema Example.bad_validation Example.fresh).1
          = inl (MER_VALIDATION_ERR_FIELD_TYPE_UNDEFINED
                   (JStr (field_id "Filters" "color")))) as E
    by (vm_compute; reflexivity).
  split; [exact E|].
  exact (proj1 (field_type_error_precedes_registration inferJSONSchemaType_default
                  Example.accept_all Example.compile_all
                  Example.good_schema Example.bad_validation Example.fresh _ _
                  (pair_eta _ _ E))).
Defined.

(** ** The instance a pass leaves when it returns *)

Section InstanceFacts.

Variable infer : NamedType -> bool -> JSValue.
Variable schema_valid : JSObject -> bool.
Variable compile_ok : gmap string JSObject -> JSObject -> bool.

Lemma getSchema_compiled key a a' :
  getSchema compile_ok key a = inr a' ->
  (forall k, k ∈ compiled a' ->
     k ∈ compiled a \/ (key = JStr k /\ is_Some (schemas a !! k)))
  /\ (forall k, k ∈ compiled a -> k ∈ compiled a')
  /\ (forall k, key = JStr k -> is_Some (schemas a !! k) -> k ∈ compiled a').
Proof.
  unfold getSchema. destruct key as [| | | |k0| | |];
    try (intros [= <-]; repeat split; by auto).
  destruct (schemas a !! k0) as [schema|] eqn:E.
  2:{ intros [= <-]. repeat split; [by auto..|].
      intros k [= <-] Hs. rewrite E in Hs. by destruct Hs. }
  destruct (decide (k0 ∈ compiled a)) as [Hin|Hnot].
  { intros [= <-]. repeat split; [by auto..|]. by intros k [= <-] _. }
  destruct (compile_ok _ _); [|done].
  intros [= <-]. simpl. repeat split.
  - intros k [->%elem_of_singleton|H]%elem_of_union; [|by left].
    right. by rewrite E.
  - intros k H. apply elem_of_union. by right.
  - intros k [= <-] _. apply elem_of_union. left. by apply elem_of_singleton.
Qed.

Lemma get_loop_compiled us :
  forall v a v',
    kAjv v = Some a ->
    for_of us (get_step compile_ok) tt v = (inr tt, v') ->
    exists a',
      kAjv v' = Some a'
      /\ schemas a' = schemas a
      /\ (forall k, k ∈ compiled a' ->
            k ∈ compiled a
            \/ exists u, u ∈ us /\ unit_key u = JStr k /\ is_Some (schemas a !! k))
      /\ (forall k, k ∈ compiled a -> k ∈ compiled a')
      /\ (forall u k, u ∈ us -> unit_key u = JStr k -> is_Some (schemas a !! k) ->
            k ∈ compiled a').
Proof.
  induction us as [|u l IH]; intros v a v' Hv H.
  - injection H as <-. exists a. repeat split; try done; [by auto|].
    by intros u k ?%elem_of_nil.
  - rewrite for_of_cons, (get_step_run compile_ok u v a Hv) in H.
    destruct (getSchema compile_ok (unit_key u) a) as [e1|a1] eqn:E; [done|].
    pose proof (getSchema_inr compile_ok _ _ _ E) as Hs1.
    apply getSchema_compiled in E as (Hsub & Hmono & Hnew).
    destruct (IH {| kAjv := Some a1;
                    history := history v ++ [GetSchema (unit_key u)] |}
                a1 v' eq_refl H) as (a' & Ha' & Hs & Hsub' & Hmono' & Hnew').
    exists a'. split; [done|]. split; [congruence|]. rewrite Hs1 in *.
    split; [|split].
    + intros k Hk. destruct (Hsub' k Hk) as [Hk1|(u' & Hin & Hk' & Hs')].
      * destruct (Hsub k Hk1) as [?|[Hk' Hs']]; [by left|].
        right. exists u. split; [left|done].
      * right. exists u'. split; [by right|done].
    + intros k Hk. by apply Hmono', Hmono.
    + intros u' k [->|Hin]%elem_of_cons Hk Hs'.
      * by apply Hmono', Hnew.
      * by eapply Hnew'.
Qed.

End InstanceFacts.

(** X8.  When a pass returns, whatever the validator held before, the
    Ajv instance holds the collected units under their [$id] and nothing
    else, every one of them was accepted by the backend, and the
    compiled keys are exactly their identifiers. *)
Theorem returned_pass_instance infer schema_valid compile_ok schema vs v v' :
  registerValidationSchema infer schema_valid compile_ok schema vs v = (inr tt, v') ->
  exists a,
    kAjv v' = Some a
    /\ (forall k s, schemas a !! k = Some s <->
          s ∈ units infer schema vs /\ unit_key s = JStr k)
    /\ (forall k, k ∈ compiled a <->
          exists s, s ∈ units infer schema vs /\ unit_key s = JStr k)
    /\ (forall s, s ∈ units infer schema vs -> schema_valid s = true).
Proof.
  rewrite registerValidationSchema_run.
  destruct (collect_schemas _ _ _ _) as [[e|us] v1] eqn:E1; [done|].
  apply collect_schemas_success in E1 as (-> & _ & Hk1). simpl in Hk1.
  pose proof (add_loop schema_valid (units infer schema vs) v1 new_Ajv Hk1)
    as (n & a1 & _ & Ha1 & Hc1 & Hold & Hok).
  destruct (for_of _ (add_step _) tt v1) as [[e|[]] v2] eqn:E2; [done|].
  simpl in *. destruct (Hok eq_refl) as (_ & _ & Hall).
  intros E3. apply (get_loop_compiled compile_ok _ v2 a1) in E3
    as (a2 & Ha2 & Hs2 & Hsub & _ & Hnew); [|done].
  exists a2. split; [done|]. rewrite Hs2. split; [|split].
  - intros k s. split.
    + intros H. destruct (Hold k s H) as [H'|H']; [|done].
      unfold new_Ajv in H'. simpl in H'. by rewrite lookup_empty in H'.
    + intros [Hu Hk]. destruct (Hall s Hu) as (k' & Hk' & Hs').
      rewrite Hk in Hk'. by injection Hk' as <-.
  - intros k. split.
    + intros Hk. destruct (Hsub k Hk) as [Hk'|(u & Hu & Hku & _)].
      * rewrite Hc1 in Hk'. unfold new_Ajv in Hk'. simpl in Hk'.
        by apply not_elem_of_empty in Hk'.
      * by exists u.
    + intros (s & Hu & Hk). apply (Hnew s k Hu Hk).
      destruct (Hall s Hu) as (k' & Hk' & Hs').
      rewrite Hk in Hk'. injection Hk' as <-. by rewrite Hs'.
  - intros s Hu. clear Hall Hok Hold Hsub Hnew Ha1 Ha2 Hs2 Hc1.
    revert v1 Hk1 E2. generalize new_Ajv.
    induction (units infer schema vs) as [|u l IH]; intros a v1 Hk1 E2;
      [by apply elem_of_nil in Hu|].
    rewrite for_of_cons, (add_step_run schema_valid u v1 a Hk1) in E2.
    destruct (addSchema schema_valid u (unit_key u) a) as [e1|a']  eqn:E; [done|].
    apply elem_of_cons in Hu as [->|Hu].
    + unfold addSchema in E. destruct (unit_key u); try done.
      destruct (schemas a !! _); [done|]. by destruct (schema_valid u).
    + by apply (IH Hu a' {| kAjv := Some a';
                            history := history v1 ++ [AddSchema (unit_key u)] |}).
Qed.

Lemma returned_pass_instance_witness :
  returns (Example.run Example.good_schema Example.good_validation Example.fresh).1 = true
  /\ exists a,
       kAjv (Example.run Example.good_schema Example.good_validation Example.fresh).2
       = Some a
       /\ (forall k, k ∈ compiled a <->
             exists s, s ∈ units inferJSONSchemaType_default Example.good_schema
                             Example.good_validation
                       /\ unit_key s = JStr k).
Proof.
  assert ((Example.run Example.good_schema Example.good_validation Example.fresh).1
          = inr tt) as E by (vm_compute; reflexivity).
  split; [by rewrite E|].
  destruct (returned_pass_instance inferJSONSchemaType_default
              Example.accept_all Example.compile_all
              Example.good_schema Example.good_validation Example.fresh _
              (pair_eta _ _ E)) as (a & Ha & _ & Hc & _).
  exists a. split; [exact Ha | exact Hc].
Defined.

(** ** The type-level unit, key by key *)

Lemma set_properties_lookup_elem o bindings k v :
  properties_of (set_properties o bindings) !! k = Some v ->
  (k, v) ∈ bindings \/ properties_of o !! k = Some v.
Proof.
  revert o. induction bindings as [|[k' v'] l IH]; intros o H; [by right|].
  unfold set_properties in *. simpl in H. apply IH in H as [H|H]; [left; by right|].
  rewrite set_property_properties in H.
  destruct (decide (k' = k)) as [->|Hne].
  - rewrite lookup_insert_eq in H. injection H as ->. left. left.
  - rewrite lookup_insert_ne in H by done. by right.
Qed.

Section TypeLevelFacts.

Variable infer : NamedType -> bool -> JSValue.

Lemma type_step_last vs regs typeName schemaType fields v us v' :
  type_step infer vs regs (typeName, schemaType) v = (inr us, v') ->
  visited_input_type (typeName, schemaType) fields ->
  last us = Some (type_schema infer typeName schemaType
                    (type_validation vs typeName) fields).
Proof.
  intros H (Hf & Hn & Hi). simpl in *.
  apply type_step_success in H as (-> & _).
  unfold type_units. simpl. rewrite Hf, Hn, Hi. simpl.
  by rewrite app_assoc, last_snoc.
Qed.

Lemma type_schema_other_key typeName schemaType tv fields k :
  isInputObjectKind (type_kind schemaType) = true ->
  k <> "$id" -> k <> "type" -> k <> "nullable" -> k <> "properties" ->
  type_schema infer typeName schemaType tv fields !! k
  = if not_null tv && negb (is_undefined (prop tv "__typeValidation"))
    then own_props (prop tv "__typeValidation") !! k
    else None.
Proof.
  intros Hi H1 H2 H3 H4. unfold type_schema.
  rewrite set_properties_other by done. unfold initial_type_schema.
  rewrite Hi. simpl.
  destruct (not_null tv && negb (is_undefined (prop tv "__typeValidation"))).
  - rewrite lookup_union_r; [done|]. by simplify_map_eq.
  - by simplify_map_eq.
Qed.

Lemma type_schema_typed_property typeName schemaType tv fields f s :
  properties_of (type_schema infer typeName schemaType tv fields) !! f = Some s ->
  exists field,
    (f, field) ∈ fields
    /\ has_arguments field = false
    /\ let frag := kValidationSchema infer (field_info field).1.1
                     (field_info field).1.2 (field_info field).2
                     (field_validation tv f) (field_id typeName f) in
       s = JObj frag
       /\ is_string_or_array (prop (JObj frag) "type") = true.
Proof.
  unfold type_schema. intros H.
  apply set_properties_lookup_elem in H as [H|H].
  2:{ by rewrite initial_type_schema_properties, lookup_empty in H. }
  apply list_elem_of_omap in H as ([f' field] & Hin & H).
  unfold field_property in H. simpl in H.
  destruct (has_arguments field) eqn:Ha; [done|].
  unfold kBuildInputTypeFieldSchema in H.
  destruct (field_info field) as [[ty named] nn] eqn:Ei. simpl.
  destruct (not_null (field_validation tv f') && _); [done|].
  destruct (is_string_or_array _) eqn:Hs; [|done].
  injection H as -> <-. exists field. by rewrite Ei.
Qed.

End TypeLevelFacts.

(** X9.  The type-level unit is the last unit a visited input-object
    type adds.  A key of it other than [$id], [type], [nullable] and
    [properties] has the value the [__typeValidation] override gives it,
    and is absent when there is no such override: visiting the fields
    changes [properties] only. *)
Theorem type_level_override_keys infer vs regs typeName schemaType fields v us v' :
  type_step infer vs regs (typeName, schemaType) v = (inr us, v') ->
  visited_input_type (typeName, schemaType) fields ->
  exists u,
    last us = Some u
    /\ forall k,
         k <> "$id" -> k <> "type" -> k <> "nullable" -> k <> "properties" ->
         let tv := type_validation vs typeName in
         u !! k = if not_null tv && negb (is_undefined (prop tv "__typeValidation"))
                  then own_props (prop tv "__typeValidation") !! k
                  else None.
Proof.
  intros H Hv. eexists. split; [by eapply type_step_last|].
  intros k H1 H2 H3 H4 tv. destruct Hv as (_ & _ & Hi).
  by apply type_schema_other_key.
Qed.

Lemma type_level_override_keys_witness :
  visited_input_type ("Filters", Example.FiltersType) Example.filters_fields
  /\ exists us u,
       (type_step inferJSONSchemaType_default
          (JObj {[ "Filters" :=
                     JObj {[ "__typeValidation" :=
                               JObj {[ "minProperties" := JNum 1 ]} ]} ]})
          [] ("Filters", Example.FiltersType) Example.fresh).1 = inr us
       /\ last us = Some u
       /\ u !! "minProperties" = Some (JNum 1).
Proof.
  split; [repeat split|].
  set (vs := JObj {[ "Filters" :=
                       JObj {[ "__typeValidation" :=
                                 JObj {[ "minProperties" := JNum 1 ]} ]} ]}).
  destruct (type_step inferJSONSchemaType_default vs [] ("Filters", Example.FiltersType)
              Example.fresh) as [[e|us] v'] eqn:E.
  - exfalso. apply (f_equal (fun p => returns p.1)) in E. vm_compute in E. discriminate E.
  - destruct (type_level_override_keys inferJSONSchemaType_default vs []
                "Filters" Example.FiltersType Example.filters_fields
                Example.fresh us v' E) as (u & Hl & Hk); [repeat split|].
    exists us, u. split; [reflexivity|]. split; [exact Hl|].
    rewrite Hk by discriminate. reflexivity.
Defined.

(** X10.  Every property of a type-level unit is the fragment
    synthesized for a field without arguments of the type, and the
    [type] of that fragment is a string or an array. *)
Theorem type_level_properties_are_typed infer vs regs typeName schemaType fields
    v us v' :
  type_step infer vs regs (typeName, schemaType) v = (inr us, v') ->
  visited_input_type (typeName, schemaType) fields ->
  exists u,
    last us = Some u
    /\ forall f s,
         properties_of u !! f = Some s ->
         exists field,
           (f, field) ∈ fields
           /\ has_arguments field = false
           /\ let frag :=
                kValidationSchema infer (field_info field).1.1
                  (field_info field).1.2 (field_info field).2
                  (field_validation (type_validation vs typeName) f)
                  (field_id typeName f) in
              s = JObj frag
              /\ is_string_or_array (prop (JObj frag) "type") = true.
Proof.
  intros H Hv. eexists. split; [by eapply type_step_last|].
  intros f s. apply type_schema_typed_property.
Qed.

Lemma type_level_properties_are_typed_witness :
  visited_input_type ("Filters", Example.FiltersType) Example.filters_fields
  /\ exists us u,
       (type_step inferJSONSchemaType_default Example.good_validation
          [] ("Filters", Example.FiltersType) Example.fresh).1 = inr us
       /\ last us = Some u
       /\ properties_of u !! "color" = None.
Proof.
  split; [repeat split|].
  destruct (type_step inferJSONSchemaType_default Example.good_validation []
              ("Filters", Example.FiltersType) Example.fresh) as [[e|us] v'] eqn:E.
  - exfalso. apply (f_equal (fun p => returns p.1)) in E. vm_compute in E. discriminate E.
  - destruct (type_level_properties_are_typed inferJSONSchemaType_default
                Example.good_validation [] "Filters" Example.FiltersType
                Example.filters_fields Example.fresh us v' E)
      as (u & Hl & Hp); [repeat split|].
    exists us, u. split; [reflexivity|]. split; [exact Hl|].
    destruct (properties_of u !! "color") as [s|] eqn:Hc; [|reflexivity].
    exfalso. destruct (Hp "color" s Hc) as (field & Hin & _ & _ & Ht).
    apply list_elem_of_In in Hin. simpl in Hin.
    destruct Hin as [Hin|[Hin|[Hin|[]]]]; try discriminate Hin.
    injection Hin as <-. vm_compute in Ht. discriminate Ht.
Defined.

(** ** Where a unit comes from *)

(** X11.  Every unit a completed walk collects comes from a type of the
    type map that has fields and whose name does not start with ["__"]:
    it is the type-level unit of that type, which is then an
    input-object type, or the argument object of one of its fields that
    declares at least one argument. *)
Theorem unit_provenance infer schema vs v us v' u :
  collect_schemas infer schema vs v = (inr us, v') ->
  u ∈ us ->
  exists typeName schemaType fields,
    (typeName, schemaType) ∈ schema
    /\ getFields schemaType = Some fields
    /\ is_introspection typeName = false
    /\ ((isInputObjectKind (type_kind schemaType) = true
         /\ u = type_schema infer typeName schemaType
                  (type_validation vs typeName) fields)
        \/ (exists f field arguments,
              (f, field) ∈ fields
              /\ args field = Some arguments
              /\ arguments <> []
              /\ u = arguments_schema infer typeName f
                       (field_validation (type_validation vs typeName) f)
                       arguments)).
Proof.
  intros H Hu. apply collect_schemas_success in H as (-> & _).
  unfold units in Hu. apply list_elem_of_In, in_flat_map in Hu
    as ([typeName schemaType] & Hin & Hu).
  apply list_elem_of_In in Hin. apply list_elem_of_In in Hu.
  unfold type_units in Hu. simpl in Hu.
  destruct (getFields schemaType) as [fields|] eqn:Hf; [|by apply elem_of_nil in Hu].
  destruct (is_introspection typeName) eqn:Hn; [by apply elem_of_nil in Hu|].
  simpl in Hu. exists typeName, schemaType, fields. repeat split; try done.
  apply elem_of_app in Hu as [Hu|Hu].
  - right. apply list_elem_of_omap in Hu as ([f field] & Hfield & Hu).
    unfold field_unit, has_arguments in Hu. simpl in Hu.
    destruct (args field) as [[|a l]|] eqn:Ha; try done.
    injection Hu as <-. by exists f, field, (a :: l).
  - left. destruct (isInputObjectKind (type_kind schemaType));
      [|by apply elem_of_nil in Hu].
    by apply list_elem_of_singleton in Hu.
Qed.

Lemma unit_provenance_witness :
  exists u typeName schemaType fields,
    u ∈ units inferJSONSchemaType_default Example.good_schema Example.good_validation
    /\ (typeName, schemaType) ∈ Example.good_schema
    /\ getFields schemaType = Some fields
    /\ is_introspection typeName = false.
Proof.
  pose proof (collect_schemas_returns inferJSONSchemaType_default Example.good_schema
                Example.good_validation Example.fresh) as E.
  assert (arguments_schema inferJSONSchemaType_default "Query" "message" JNull
            Example.message_arguments
          ∈ units inferJSONSchemaType_default Example.good_schema Example.good_validation)
    as Hu.
  { apply list_elem_of_In. left. reflexivity. }
  destruct (unit_provenance inferJSONSchemaType_default Example.good_schema
              Example.good_validation Example.fresh _ _ _
              (E ltac:(vm_compute; reflexivity)) Hu)
    as (typeName & schemaType & fields & H1 & H2 & H3 & _).
  exists (arguments_schema inferJSONSchemaType_default "Query" "message" JNull
            Example.message_arguments), typeName, schemaType, fields.
  split; [exact Hu|].
  split; [exact H1|]. split; [exact H2 | exact H3].
Defined.

(** ** Interceptions made before a failure *)

Lemma for_of_app {A B} (body : B -> A -> M B) l1 l2 acc v :
  for_of (l1 ++ l2) body acc v =
    match for_of l1 body acc v with
    | (inl e, v') => (inl e, v')
    | (inr acc', v') => for_of l2 body acc' v'
    end.
Proof.
  revert acc v. induction l1 as [|x l IH]; intros acc v; [done|].
  rewrite <- app_comm_cons, !for_of_cons.
  destruct (body acc x v) as [[e|acc1] v1]; [done|]. apply IH.
Qed.

(** X12.  The resolver overrides made while visiting the types that
    precede a failure stay recorded: when the walk of a prefix of the
    type map returns, the walk of the whole map starts with the same
    overrides, whether it returns or throws. *)
Theorem interceptions_survive_failure infer visited rest vs v :
  returns (collect_schemas infer visited vs v).1 = true ->
  let out := collect_schemas infer (visited ++ rest) vs v in
  exists later,
    history out.2 = history v ++ flat_map type_calls visited ++ later
    /\ Forall (intercepts rest) later.
Proof.
  intros Hr out. subst out. unfold collect_schemas. rewrite for_of_app.
  apply collect_schemas_returns in Hr.
  pose proof Hr as Hr'. apply collect_schemas_success in Hr' as (_ & Hh & _).
  unfold collect_schemas in Hr. rewrite Hr.
  destruct (types_loop_calls infer vs rest rest (fun x H => H)
              (units infer visited vs) (collect_schemas infer visited vs v).2)
    as (later & Hh' & HF & _).
  exists later. split; [|done]. unfold collect_schemas in *.
  by rewrite Hh', Hh, <- app_assoc.
Qed.

Lemma interceptions_survive_failure_witness :
  returns (collect_schemas inferJSONSchemaType_default
             [ ("Query", Example.QueryType) ] Example.bad_validation Example.fresh).1
  = true
  /\ returns (collect_schemas inferJSONSchemaType_default Example.good_schema
                Example.bad_validation Example.fresh).1 = false
  /\ exists later,
       history (collect_schemas inferJSONSchemaType_default Example.good_schema
                  Example.bad_validation Example.fresh).2
       = [] ++ flat_map type_calls [ ("Query", Example.QueryType) ] ++ later.
Proof.
  split; [vm_compute; reflexivity|]. split; [vm_compute; reflexivity|].
  destruct (interceptions_survive_failure inferJSONSchemaType_default
              [ ("Query", Example.QueryType) ]
              [ ("Filters", Example.FiltersType); ("Color", Example.ColorType) ]
              Example.bad_validation Example.fresh)
    as (later & Hh & _).
  - vm_compute. reflexivity.
  - exists later. exact Hh.
Defined.
